(** * II-Agent: context window, response cache and query routing

    A shallow embedding of the resource-bounded context and query
    management code of the II-Agent backend, with the properties its
    design document states about it.

    - [Py]: Python's list slices and [list.pop], with their behaviour on
      negative and out-of-range indices. Python integers are [Z], Python
      lists are [list].
    - [ContextWindow]: [apply_sliding_window] of
      [services/context_window.py], as printed in the sliding window guide
      (MD/IMPROVEMENTS_SUMMARY.md, "Sliding Window Algorithm"), and the
      window [select] makes of its result.
    - [ResponseCache], [CacheKey]: the LRU response cache of
      [services/ai_service.py] and its keys.
    - [Sampling], [QueryRouter]: the sampling of large datasets and the
      choice of analyzer in [services/csv_service.py].

    The second half of the file states and proves the properties, one
    module of facts for each module of definitions. *)

From Stdlib Require Import ZArith Lia Bool Ascii.
From stdpp Require Import base list sorting strings.

#[local] Open Scope Z_scope.

(** ** Python list primitives *)

Module Py.

(** An uncaught Python exception. The sliding window can only raise
    [IndexError] (from [list.pop]). *)
Inductive exception := IndexError.

(** What a call does: it returns, it raises, or the model's loop fuel ran
    out (shown below never to happen). *)
Inductive outcome (A : Type) :=
| Returns (a : A)
| Raises (e : exception)
| OutOfFuel.
Arguments Returns {A} a.
Arguments Raises {A} e.
Arguments OutOfFuel {A}.

(** [len(l)] *)
Definition len {A} (l : list A) : Z := Z.of_nat (length l).

(** How a slice bound [i] is read on a list of length [n]: a negative
    bound counts from the end, and every bound is clipped to [0..n]. *)
Definition slice_index (n i : Z) : nat :=
  Z.to_nat (if i <? 0 then Z.max (i + n) 0 else Z.min i n).

(** [l[:stop]] *)
Definition slice_to {A} (l : list A) (stop : Z) : list A :=
  take (slice_index (len l) stop) l.

(** [l[start:]] *)
Definition slice_from {A} (l : list A) (start : Z) : list A :=
  drop (slice_index (len l) start) l.

(** [l.pop(i)]: the removed element and the list left, or [IndexError]
    when [i] (after a negative [i] is counted from the end) is out of
    range. *)
Definition pop {A} (l : list A) (i : Z) : outcome (A * list A) :=
  let j := if i <? 0 then i + len l else i in
  if (j <? 0) || (len l <=? j) then Raises IndexError
  else match l !! Z.to_nat j with
       | Some x => Returns (x, delete (Z.to_nat j) l)
       | None => Raises IndexError
       end.

End Py.

Import Py.

(** ** The sliding window *)

Module ContextWindow.

Section SlidingWindow.

(** The message type and the token estimator are not part of the
    algorithm: [estimate_tokens] is called on a list of messages. *)
Context {Message : Type}.
Variable estimate_tokens : list Message -> Z.

(** The module constant [TOKEN_LIMIT]
    ([sliding_window_token_limit], 100000 by default). *)
Variable TOKEN_LIMIT : Z.

(** [middle_index = preserve + (len(result) - preserve) // 2] *)
Definition middle_index (preserve : Z) (result : list Message) : Z :=
  preserve + (len result - preserve) / 2.

(** Step 5, the [while] loop:
<<
while tokens > TOKEN_LIMIT and len(result) > preserve + 2:
    middle_index = preserve + (len(result) - preserve) // 2
    removed = result.pop(middle_index)
    tokens -= estimate_tokens([removed])
>>
    It returns the final [result] and [tokens]. Each turn that does not
    raise shortens [result] by one, so [length result] turns of fuel
    are enough. *)
Fixpoint remove_from_middle (fuel : nat) (preserve : Z)
    (result : list Message) (tokens : Z) : outcome (list Message * Z) :=
  if (TOKEN_LIMIT <? tokens) && (preserve + 2 <? len result) then
    match pop result (middle_index preserve result) with
    | Returns (removed, result') =>
        match fuel with
        | O => OutOfFuel
        | S fuel' =>
            remove_from_middle fuel' preserve result'
              (tokens - estimate_tokens [removed])
        end
    | Raises e => Raises e
    | OutOfFuel => OutOfFuel
    end
  else Returns (result, tokens).

(** Steps 1 to 4: the window before the token check,
    [messages[:preserve] + messages[-(max_msgs - preserve):]]. *)
Definition initial_window (messages : list Message)
    (max_msgs preserve : Z) : list Message :=
  let preserved := slice_to messages preserve in
  let recent_count := max_msgs - preserve in
  let recent := slice_from messages (- recent_count) in
  preserved ++ recent.

(** The body of [apply_sliding_window], keeping the local [tokens]
    next to [result]. On the early return [tokens] was never computed:
    [None]. *)
Definition sliding_window_run (messages : list Message)
    (max_msgs preserve : Z) : outcome (list Message * option Z) :=
  let total := len messages in
  if total <=? max_msgs then Returns (messages, None)
  else
    let result := initial_window messages max_msgs preserve in
    let tokens := estimate_tokens result in
    match remove_from_middle (length result) preserve result tokens with
    | Returns (result', tokens') => Returns (result', Some tokens')
    | Raises e => Raises e
    | OutOfFuel => OutOfFuel
    end.

(** [apply_sliding_window(messages, max_msgs=20, preserve=2)] *)
Definition apply_sliding_window (messages : list Message)
    (max_msgs preserve : Z) : outcome (list Message) :=
  match sliding_window_run messages max_msgs preserve with
  | Returns (result, _) => Returns result
  | Raises e => Raises e
  | OutOfFuel => OutOfFuel
  end.

(** *** The window handed to the caller *)

(** The derived view of section 3 of the design: the selected messages
    and the figures reported with them. *)
Record ContextWindow := {
  window : list Message;       (* the messages to submit, in order *)
  considered : Z;              (* total messages considered *)
  kept : Z;                    (* messages kept *)
  removed : Z;                 (* messages left out *)
  estimatedTokens : Z;         (* estimated token cost of the window *)
  truncated : bool             (* whether truncation occurred *)
}.

(** Modelled from the spec: the metadata that [select] reports with the
    window (the caller of [apply_sliding_window] that builds it,
    [get_optimized_context], is known from its documentation only). Step 7 of
    section 4.2: [kept = len(window)],
    [removed = len(history) - len(window)], [estimatedTokens = tokens],
    [truncated = removed > 0]; on the early return, where the code has
    no [tokens], the estimate of the returned history. *)
Definition metadata (history result : list Message) (tokens : option Z)
    : ContextWindow :=
  {| window := result;
     considered := len history;
     kept := len result;
     removed := len history - len result;
     estimatedTokens :=
       match tokens with
       | Some t => t
       | None => estimate_tokens result
       end;
     truncated := 0 <? len history - len result |}.

End SlidingWindow.

Arguments ContextWindow Message : clear implicits.

(** The budget configuration of a conversation. *)
Record Config := {
  maxMessages : Z;
  preserveFirst : Z;
  maxTokens : Z
}.

(** Modelled from the spec: [select(history, maxMessages, preserveFirst,
    maxTokens)] of section 4.2 is [apply_sliding_window] run with
    [TOKEN_LIMIT = maxTokens], its result wrapped with [metadata]. *)
Definition select {Message} (estimate_tokens : list Message -> Z)
    (history : list Message) (cfg : Config) : outcome (ContextWindow Message) :=
  match sliding_window_run estimate_tokens (maxTokens cfg) history
          (maxMessages cfg) (preserveFirst cfg) with
  | Returns (result, tokens) =>
      Returns (metadata estimate_tokens history result tokens)
  | Raises e => Raises e
  | OutOfFuel => OutOfFuel
  end.

(** The messages of a window that was returned; nothing otherwise. *)
Definition messages_of {Message} (o : outcome (ContextWindow Message))
    : outcome (list Message) :=
  match o with
  | Returns w => Returns (window w)
  | Raises e => Raises e
  | OutOfFuel => OutOfFuel
  end.

(** A budget is well formed when the preserved opening leaves room for
    recent messages. *)
Definition well_formed (cfg : Config) : Prop :=
  0 <= preserveFirst cfg < maxMessages cfg.

(** The default budget of [config.py]: 20 messages, the first 2
    preserved, 100000 tokens. *)
Definition default_config : Config :=
  {| maxMessages := 20; preserveFirst := 2; maxTokens := 100000 |}.

(** *** Sample data *)

(** A history of [n] messages, numbered from 1 as in the guide's
    worked example. *)
Definition numbered (n : nat) : list Z := Z.of_nat <$> seq 1 n.

(** An estimator that charges every message the same 10 tokens. *)
Definition flat_estimate (l : list Z) : Z := 10 * len l.

End ContextWindow.

(** ** The response cache *)

Module ResponseCache.

Section Cache.

Context {K V : Type} `{EqDecision K}.

(** Modelled from the spec: the response cache of
    [services/ai_service.py], documented only as an in-memory LRU cache of
    1000 responses under MD5-based keys. Section 4.3 of the design: a
    fixed maximum entry count; on insertion beyond capacity the least
    recently accessed entry is evicted; a read counts as an access. The
    entries are kept as an ordered map, from the least to the most recently
    accessed. *)
Record t := {
  capacity : nat;
  entries : list (K * V)
}.

Definition empty (n : nat) : t := {| capacity := n; entries := [] |}.

(** The value stored under [k], if any. *)
Fixpoint find (k : K) (es : list (K * V)) : option V :=
  match es with
  | [] => None
  | (k', v) :: es' => if decide (k' = k) then Some v else find k es'
  end.

(** The entries without the one under [k]. *)
Definition remove (k : K) (es : list (K * V)) : list (K * V) :=
  filter (fun e => e.1 <> k) es.

(** Make [k] the most recently accessed entry, with value [v]. *)
Definition touch (k : K) (v : V) (es : list (K * V)) : list (K * V) :=
  remove k es ++ [(k, v)].

(** Looking at the cache without accessing it. *)
Definition peek (k : K) (c : t) : option V := find k (entries c).

Definition keys (c : t) : list K := (entries c).*1.

(** Modelled from the spec: [get(key) -> optional value]. A hit is an
    access: the entry becomes the most recent one. A miss changes
    nothing. *)
Definition get (k : K) (c : t) : option V * t :=
  match find k (entries c) with
  | Some v =>
      (Some v, {| capacity := capacity c; entries := touch k v (entries c) |})
  | None => (None, c)
  end.

(** Modelled from the spec: [put(key, value)]. The entry becomes the most
    recent one; if the cache is then beyond its capacity, the least
    recently accessed entry is evicted. *)
Definition put (k : K) (v : V) (c : t) : t :=
  let es := touch k v (entries c) in
  {| capacity := capacity c;
     entries := if (capacity c <? length es)%nat then drop 1 es else es |}.

(** Modelled from the spec: [clear()] with no scope removes everything. *)
Definition clear (c : t) : t := {| capacity := capacity c; entries := [] |}.

(** *** Traces of cache operations *)

Inductive op :=
| Put (k : K) (v : V)
| Get (k : K).

Definition step (c : t) (o : op) : t :=
  match o with
  | Put k v => put k v c
  | Get k => (get k c).2
  end.

Definition run (ops : list op) (c : t) : t := foldl step c ops.

(** The keys inserted by a trace, in order. *)
Definition put_keys (ops : list op) : list K :=
  omap (fun o => match o with Put k _ => Some k | Get _ => None end) ops.

(** Whether an operation accesses key [k]: a write or a read of it. *)
Definition touches (k : K) (o : op) : bool :=
  match o with
  | Put k' _ => bool_decide (k' = k)
  | Get k' => bool_decide (k' = k)
  end.

(** The position in the trace, counted from 1, of the last access to [k];
    0 when the trace never accesses [k]. *)
Fixpoint last_touch (k : K) (ops : list op) : nat :=
  match ops with
  | [] => 0
  | o :: ops' =>
      match last_touch k ops' with
      | O => if touches k o then 1 else 0
      | S n => S (S n)
      end
  end.

(** [k] is a least recently accessed key of the trace: no inserted key was
    last accessed before it. *)
Definition least_recently_accessed (k : K) (ops : list op) : Prop :=
  forall k2, k2 ∈ put_keys ops -> (last_touch k ops <= last_touch k2 ops)%nat.

End Cache.

Arguments t : clear implicits.
Arguments op : clear implicits.

(** *** Sample data *)

(** An empty cache of two entries, and a trace that fills it and then reads
    the entry written first. *)
Definition small_cache : t nat Z := empty 2.

Definition fill_and_read : list (op nat Z) :=
  [Put 1%nat 10; Put 2%nat 20; Get 1%nat].

End ResponseCache.

(** ** Cache keys *)

Module CacheKey.

(** What a request submits downstream: the messages of its context window,
    each a role and a text, and the system instructions, if any. *)
Record Submission := {
  window_content : list (string * string);
  system_prompt : option string
}.

(** An MD5 digest has 128 bits. *)
Definition digest_bound : Z := 2 ^ 128.

(** *** MD5 (RFC 1321) *)

(** A 32-bit word, and addition modulo 2^32 by way of it. *)
Definition word (x : Z) : Z := x mod 2 ^ 32.

(** [x <<< s], for a word [x]. *)
Definition rotl (x s : Z) : Z :=
  word (Z.lor (Z.shiftl x s) (Z.shiftr x (32 - s))).

(** The complement of a word. *)
Definition wnot (x : Z) : Z := Z.lxor x 0xffffffff.

(** The shift amounts of the 64 steps. *)
Definition shifts : list Z :=
  [7; 12; 17; 22; 7; 12; 17; 22; 7; 12; 17; 22; 7; 12; 17; 22;
   5; 9; 14; 20; 5; 9; 14; 20; 5; 9; 14; 20; 5; 9; 14; 20;
   4; 11; 16; 23; 4; 11; 16; 23; 4; 11; 16; 23; 4; 11; 16; 23;
   6; 10; 15; 21; 6; 10; 15; 21; 6; 10; 15; 21; 6; 10; 15; 21].

(** The constants of the 64 steps: [floor (2^32 * abs (sin (i + 1)))]. *)
Definition sines : list Z :=
  [0xd76aa478; 0xe8c7b756; 0x242070db; 0xc1bdceee;
   0xf57c0faf; 0x4787c62a; 0xa8304613; 0xfd469501;
   0x698098d8; 0x8b44f7af; 0xffff5bb1; 0x895cd7be;
   0x6b901122; 0xfd987193; 0xa679438e; 0x49b40821;
   0xf61e2562; 0xc040b340; 0x265e5a51; 0xe9b6c7aa;
   0xd62f105d; 0x02441453; 0xd8a1e681; 0xe7d3fbc8;
   0x21e1cde6; 0xc33707d6; 0xf4d50d87; 0x455a14ed;
   0xa9e3e905; 0xfcefa3f8; 0x676f02d9; 0x8d2a4c8a;
   0xfffa3942; 0x8771f681; 0x6d9d6122; 0xfde5380c;
   0xa4beea44; 0x4bdecfa9; 0xf6bb4b60; 0xbebfbc70;
   0x289b7ec6; 0xeaa127fa; 0xd4ef3085; 0x04881d05;
   0xd9d4d039; 0xe6db99e5; 0x1fa27cf8; 0xc4ac5665;
   0xf4292244; 0x432aff97; 0xab9423a7; 0xfc93a039;
   0x655b59c3; 0x8f0ccc92; 0xffeff47d; 0x85845dd1;
   0x6fa87e4f; 0xfe2ce6e0; 0xa3014314; 0x4e0811a1;
   0xf7537e82; 0xbd3af235; 0x2ad7d2bb; 0xeb86d391].

(** The auxiliary function of step [i]: F, G, H and I, one for each round
    of 16 steps. *)
Definition round_function (i : nat) (b c d : Z) : Z :=
  if (i <? 16)%nat then Z.lor (Z.land b c) (Z.land (wnot b) d)
  else if (i <? 32)%nat then Z.lor (Z.land d b) (Z.land (wnot d) c)
  else if (i <? 48)%nat then Z.lxor (Z.lxor b c) d
  else Z.lxor c (Z.lor b (wnot d)).

(** The word of the block that step [i] reads. *)
Definition message_index (i : nat) : nat :=
  if (i <? 16)%nat then i
  else if (i <? 32)%nat then ((5 * i + 1) mod 16)%nat
  else if (i <? 48)%nat then ((3 * i + 5) mod 16)%nat
  else ((7 * i) mod 16)%nat.

(** The state of the digest: the registers A, B, C and D. *)
Definition registers : Type := Z * Z * Z * Z.

Definition initial : registers :=
  (0x67452301, 0xefcdab89, 0x98badcfe, 0x10325476).

(** One step, over the 16 words [M] of a block. *)
Definition step (M : list Z) (st : registers) (i : nat) : registers :=
  let '(a, b, c, d) := st in
  let f := word (round_function i b c d + a + nth i sines 0
                 + nth (message_index i) M 0) in
  (d, word (b + rotl f (nth i shifts 0)), b, c).

(** The value of bytes read low byte first, and the [n] low bytes of a
    number written that way. *)
Definition le_value (bytes : list Z) : Z :=
  foldr (fun b v => b + 256 * v) 0 bytes.

Fixpoint le_bytes (n : nat) (x : Z) : list Z :=
  match n with
  | O => []
  | S n' => x mod 256 :: le_bytes n' (x / 256)
  end.

(** The first [n] words of a block. *)
Fixpoint words (n : nat) (bytes : list Z) : list Z :=
  match n with
  | O => []
  | S n' => le_value (take 4 bytes) :: words n' (drop 4 bytes)
  end.

(** A block of 64 bytes is worked into the registers. *)
Definition compress (st : registers) (block : list Z) : registers :=
  let '(a0, b0, c0, d0) := st in
  let '(a, b, c, d) := foldl (step (words 16 block)) st (seq 0 64) in
  (word (a0 + a), word (b0 + b), word (c0 + c), word (d0 + d)).

(** [n] blocks in turn. *)
Fixpoint absorb (n : nat) (st : registers) (bytes : list Z) : registers :=
  match n with
  | O => st
  | S n' => absorb n' (compress st (take 64 bytes)) (drop 64 bytes)
  end.

(** What is appended to a message of [len] bytes: a one bit, zeros up to 56
    bytes modulo 64, and the length in bits on 8 bytes. *)
Definition padding (len : nat) : list Z :=
  128 :: replicate ((119 - len mod 64) mod 64) 0
  ++ le_bytes 8 (8 * Z.of_nat len).

Definition pad (message : list Z) : list Z :=
  message ++ padding (length message).

(** Modelled from the spec: the hash of the keys (the documentation says
    "MD5 hash-based cache keys"; the call is in [services/ai_service.py],
    known from its documentation only), as RFC 1321 defines it. The digest
    is 16 bytes. *)
Definition md5 (message : list Z) : list Z :=
  let padded := pad message in
  let '(a, b, c, d) := absorb (length padded / 64) initial padded in
  le_bytes 4 a ++ le_bytes 4 b ++ le_bytes 4 c ++ le_bytes 4 d.

(** The bytes of a text, one for each character, and back. *)
Fixpoint bytes (t : string) : list Z :=
  match t with
  | EmptyString => []
  | String c t' => Z.of_N (N_of_ascii c) :: bytes t'
  end.

Fixpoint text (l : list Z) : string :=
  match l with
  | [] => EmptyString
  | b :: l' => String (ascii_of_N (Z.to_N b)) (text l')
  end.

(** A digest in hexadecimal, as [hexdigest] writes it. *)
Definition hex_digit (x : Z) : ascii :=
  ascii_of_N (Z.to_N (if x <? 10 then 48 + x else 87 + x)).

Fixpoint hexdigest (digest : list Z) : string :=
  match digest with
  | [] => EmptyString
  | b :: digest' =>
      String (hex_digit (b / 16)) (String (hex_digit (b mod 16))
                                      (hexdigest digest'))
  end.

(** *** The key *)

Section Key.

(** How the submitted content is written out before it is hashed: the
    documentation only says [hash(messages + system_prompt)]. *)
Variable serialize : Submission -> string.

(** Modelled from the spec: the key of a request is the MD5 digest of its
    serialized submission (section 4.3; the function that derives it in
    [services/ai_service.py] is known from its documentation only). *)
Definition cache_key (s : Submission) : list Z := md5 (bytes (serialize s)).

(** The key derivation never gives two different submissions one key. *)
Definition collision_free : Prop :=
  forall s1 s2, s1 <> s2 -> cache_key s1 <> cache_key s2.

End Key.

(** *** Sample data *)

(** The submission of one user message, without system instructions. *)
Definition one_message (t : string) : Submission :=
  {| window_content := [("user"%string, t)]; system_prompt := None |}.

(** The message whose text writes the number [i] on 17 bytes. *)
Definition numbered_message (i : nat) : Submission :=
  one_message (text (le_bytes 17 (Z.of_nat i))).

(** The plainest serialization: the texts of the messages in their order,
    then the system instructions. *)
Definition content_then_prompt (s : Submission) : string :=
  (String.concat "" (snd <$> window_content s)
   +:+ default "" (system_prompt s))%string.

(** The two colliding messages of Wang et al. (2004): two blocks each,
    different in six bytes. *)
Definition collision_a : list Z :=
  [0xd1; 0x31; 0xdd; 0x02; 0xc5; 0xe6; 0xee; 0xc4;
   0x69; 0x3d; 0x9a; 0x06; 0x98; 0xaf; 0xf9; 0x5c;
   0x2f; 0xca; 0xb5; 0x87; 0x12; 0x46; 0x7e; 0xab;
   0x40; 0x04; 0x58; 0x3e; 0xb8; 0xfb; 0x7f; 0x89;
   0x55; 0xad; 0x34; 0x06; 0x09; 0xf4; 0xb3; 0x02;
   0x83; 0xe4; 0x88; 0x83; 0x25; 0x71; 0x41; 0x5a;
   0x08; 0x51; 0x25; 0xe8; 0xf7; 0xcd; 0xc9; 0x9f;
   0xd9; 0x1d; 0xbd; 0xf2; 0x80; 0x37; 0x3c; 0x5b;
   0xd8; 0x82; 0x3e; 0x31; 0x56; 0x34; 0x8f; 0x5b;
   0xae; 0x6d; 0xac; 0xd4; 0x36; 0xc9; 0x19; 0xc6;
   0xdd; 0x53; 0xe2; 0xb4; 0x87; 0xda; 0x03; 0xfd;
   0x02; 0x39; 0x63; 0x06; 0xd2; 0x48; 0xcd; 0xa0;
   0xe9; 0x9f; 0x33; 0x42; 0x0f; 0x57; 0x7e; 0xe8;
   0xce; 0x54; 0xb6; 0x70; 0x80; 0xa8; 0x0d; 0x1e;
   0xc6; 0x98; 0x21; 0xbc; 0xb6; 0xa8; 0x83; 0x93;
   0x96; 0xf9; 0x65; 0x2b; 0x6f; 0xf7; 0x2a; 0x70].

Definition collision_b : list Z :=
  [0xd1; 0x31; 0xdd; 0x02; 0xc5; 0xe6; 0xee; 0xc4;
   0x69; 0x3d; 0x9a; 0x06; 0x98; 0xaf; 0xf9; 0x5c;
   0x2f; 0xca; 0xb5; 0x07; 0x12; 0x46; 0x7e; 0xab;
   0x40; 0x04; 0x58; 0x3e; 0xb8; 0xfb; 0x7f; 0x89;
   0x55; 0xad; 0x34; 0x06; 0x09; 0xf4; 0xb3; 0x02;
   0x83; 0xe4; 0x88; 0x83; 0x25; 0xf1; 0x41; 0x5a;
   0x08; 0x51; 0x25; 0xe8; 0xf7; 0xcd; 0xc9; 0x9f;
   0xd9; 0x1d; 0xbd; 0x72; 0x80; 0x37; 0x3c; 0x5b;
   0xd8; 0x82; 0x3e; 0x31; 0x56; 0x34; 0x8f; 0x5b;
   0xae; 0x6d; 0xac; 0xd4; 0x36; 0xc9; 0x19; 0xc6;
   0xdd; 0x53; 0xe2; 0x34; 0x87; 0xda; 0x03; 0xfd;
   0x02; 0x39; 0x63; 0x06; 0xd2; 0x48; 0xcd; 0xa0;
   0xe9; 0x9f; 0x33; 0x42; 0x0f; 0x57; 0x7e; 0xe8;
   0xce; 0x54; 0xb6; 0x70; 0x80; 0x28; 0x0d; 0x1e;
   0xc6; 0x98; 0x21; 0xbc; 0xb6; 0xa8; 0x83; 0x93;
   0x96; 0xf9; 0x65; 0xab; 0x6f; 0xf7; 0x2a; 0x70].

(** Two colliding texts of printable characters (M. Stevens), different
    in one letter. *)
Definition text_a : string :=
  "TEXTCOLLBYfGiJUETHQ4hAcKSMd5zYpgqf1YRDhkmxHkhPWptrkoyz28wnI9V0aHeAuaKnak".

Definition text_b : string :=
  "TEXTCOLLBYfGiJUETHQ4hEcKSMd5zYpgqf1YRDhkmxHkhPWptrkoyz28wnI9V0aHeAuaKnak".


(** The two colliding messages as the one message of a request that has
    system instructions. *)
Definition colliding (block : list Z) : Submission :=
  {| window_content := [("user"%string, text block)];
     system_prompt := Some "You are a helpful assistant."%string |}.

End CacheKey.

(** ** Sampling of large datasets *)

Module Sampling.

(** The documented default of [_max_dataframe_size]. *)
Definition default_max_dataframe_size : nat := Z.to_nat 10000.

Section Sample.

Context {Row : Type}.

(** The pseudo-random generator behind the sample: its state, the state a
    seed puts it in, and a draw. *)
Context {Gen : Type}.
Variable seeded : Z -> Gen.
Variable draw : Gen -> nat * Gen.

(** [n] rows drawn without replacement: each draw picks one of the rows
    still left. *)
Fixpoint sample_rows (n : nat) (g : Gen) (rows : list Row) : list Row :=
  match n with
  | O => []
  | S n' =>
      let (r, g') := draw g in
      let i := (r mod length rows)%nat in
      match rows !! i with
      | Some row => row :: sample_rows n' g' (delete i rows)
      | None => []
      end
  end.

(** Modelled from the spec: [_sample_dataframe_if_large] (README.md,
    "DataFrame Sampling for Large Datasets"; the method is known from its
    documentation only). A dataset of more than [max_size] rows is replaced by a
    sample of [max_size] rows drawn by a generator started from the fixed
    seed; the flag tells whether that happened. *)
Definition _sample_dataframe_if_large (max_size : nat) (seed : Z)
    (df : list Row) : list Row * bool :=
  if (max_size <? length df)%nat
  then (sample_rows max_size (seeded seed) df, true)
  else (df, false).

(** The metadata of the result envelope (MD/PANDASAI_INTEGRATION.md,
    "Response Format"). *)
Record Metadata := {
  query : string;
  conversation_id : string;
  dataframe_size : nat;
  sampled : bool;
  method : string
}.

Record AnalysisResult := {
  type : string;
  success : bool;
  result : option string;
  message : option string;
  timestamp : Z;
  metadata : Metadata
}.

(** The AI-driven analyzer, an external service: its answer to a query
    over the rows it is given, if it gives one. *)
Variable pandasai : list Row -> string -> option string.

(** Modelled from the spec: the complex path of section 4.4,
    [query_with_pandasai]. The dataset is sampled if large, the analyzer
    is run on what is left, and the envelope records the query, the
    conversation, the size of the dataset and whether it was sampled. *)
Definition query_with_pandasai (max_size : nat) (seed : Z) (now : Z)
    (df : list Row) (q conversation : string) : AnalysisResult :=
  let (rows, was_sampled) := _sample_dataframe_if_large max_size seed df in
  let answer := pandasai rows q in
  {| type := "pandasai_query";
     success := bool_decide (is_Some answer);
     result := answer;
     message := match answer with
                | Some _ => None
                | None => Some "PandasAI query failed"%string
                end;
     timestamp := now;
     metadata := {| query := q;
                    conversation_id := conversation;
                    dataframe_size := length df;
                    sampled := was_sampled;
                    method := "pandasai" |} |}.

End Sample.

(** *** Sample data *)

(** A linear congruential generator (the constants of the C standard's
    example [rand]). *)
Definition lcg_seeded (seed : Z) : Z := seed mod 2 ^ 31.

Definition lcg_draw (g : Z) : nat * Z :=
  let g' := (1103515245 * g + 12345) mod 2 ^ 31 in
  (Z.to_nat (g' / 65536), g').

(** A generator that reads its draws off a script, for as long as the
    script lasts. *)
Definition scripted (script : list nat) : nat * list nat :=
  match script with
  | r :: script' => (r, script')
  | [] => (O, [])
  end.

(** An analyzer that repeats the question when it is given rows, and fails
    without any. *)
Definition echo (rows : list Z) (q : string) : option string :=
  match rows with
  | [] => None
  | _ => Some q
  end.

End Sampling.

(** ** The query router *)

Module QueryRouter.

#[local] Open Scope string_scope.










End QueryRouter.

(** ** JavaScript strings *)

Module JS.

(** A JavaScript string is its sequence of UTF-16 code units. *)
#[global] Abbreviation str := (list N).

(** The code units of an ASCII literal. *)
Fixpoint lit (s : string) : str :=
  match s with
  | EmptyString => []
  | String c s' => N_of_ascii c :: lit s'
  end.

(** The code units that [trim] strips: ECMAScript's WhiteSpace (TAB, VT, FF,
    SP, NBSP, ZWNBSP and the other space separators) and LineTerminator
    (LF, CR, LS, PS). *)
Definition is_white_space (u : N) : bool :=
  (((9 <=? u) && (u <=? 13)) || (u =? 32) || (u =? 160) || (u =? 5760)
   || ((8192 <=? u) && (u <=? 8202)) || (u =? 8232) || (u =? 8233)
   || (u =? 8239) || (u =? 8287) || (u =? 12288) || (u =? 65279))%N.

(** [s.trimStart()] *)
Fixpoint trimStart (s : str) : str :=
  match s with
  | [] => []
  | u :: s' => if is_white_space u then trimStart s' else s
  end.

(** [s.trimEnd()] *)
Definition trimEnd (s : str) : str := reverse (trimStart (reverse s)).

(** [s.trim()] *)
Definition trim (s : str) : str := trimEnd (trimStart s).

(** [p] begins [s]: [s.startsWith(p)]. *)
Fixpoint startsWith (s p : str) : bool :=
  match p, s with
  | [], _ => true
  | _ :: _, [] => false
  | a :: p', b :: s' => (a =? b)%N && startsWith s' p'
  end.

(** [s.endsWith(p)] *)
Definition endsWith (s p : str) : bool := startsWith (reverse s) (reverse p).

(** [s.split(sep)] for a separator of one code unit: the pieces between
    the separators, at least one piece. *)
Fixpoint split (sep : N) (s : str) : list str :=
  match s with
  | [] => [[]]
  | u :: s' =>
      if (u =? sep)%N then [] :: split sep s'
      else match split sep s' with
           | piece :: pieces => (u :: piece) :: pieces
           | [] => [[u]]
           end
  end.

(** [pieces.join(sep)] for a separator of one code unit. *)
Fixpoint join (sep : N) (pieces : list str) : str :=
  match pieces with
  | [] => []
  | [piece] => piece
  | piece :: pieces' => piece ++ sep :: join sep pieces'
  end.

(** The line feed, ["\n"]. *)
Definition LF : N := 10.

End JS.

(** ** The chat window (components/chat-window.tsx) *)

Module ChatWindow.

Import JS.

Inductive Role := user | assistant.

#[global] Instance Role_eq_dec : EqDecision Role.
Proof. solve_decision. Defined.

(** [interface Message]. An optional field is an [option]; [timestamp] is
    the time value of the [Date]. *)
Record Message := {
  id : str;
  role : Role;
  content : str;
  timestamp : Z;
  image : option str;
  csvData : option str;
  visualization : option str;
  isStreaming : option bool
}.

(** *** The updates of the message list *)

(** [(prev) => [...prev, message]] *)
Definition append_message (message : Message) (prev : list Message)
    : list Message :=
  prev ++ [message].

(** On a chunk:
    [prev.map((msg) => msg.id === streamingMessageId
       ? { ...msg, content: msg.content + chunk } : msg)] *)
Definition on_chunk (streamingMessageId chunk : str) (prev : list Message)
    : list Message :=
  (fun msg =>
     if decide (id msg = streamingMessageId)
     then {| id := id msg; role := role msg;
             content := content msg ++ chunk;
             timestamp := timestamp msg; image := image msg;
             csvData := csvData msg; visualization := visualization msg;
             isStreaming := isStreaming msg |}
     else msg) <$> prev.

(** On completion:
    [prev.map((msg) => msg.id === streamingMessageId
       ? { ...msg, id: messageId, isStreaming: false } : msg)] *)
Definition on_complete (streamingMessageId messageId : str)
    (prev : list Message) : list Message :=
  (fun msg =>
     if decide (id msg = streamingMessageId)
     then {| id := messageId; role := role msg; content := content msg;
             timestamp := timestamp msg; image := image msg;
             csvData := csvData msg; visualization := visualization msg;
             isStreaming := Some false |}
     else msg) <$> prev.

(** [prev.filter((msg) => msg.id !== messageId)], the update made on a
    stream error and on regeneration. *)
Definition remove_message (messageId : str) (prev : list Message)
    : list Message :=
  filter (fun msg => id msg <> messageId) prev.

(** *** [handleRegenerateMessage] *)

(** [messages.findIndex(p)], counting from [i]: the index of the first
    message that satisfies [p], or [-1]. *)
Fixpoint findIndex_from (i : Z) (p : Message -> bool) (messages : list Message)
    : Z :=
  match messages with
  | [] => -1
  | m :: messages' =>
      if p m then i else findIndex_from (i + 1) p messages'
  end.

Definition findIndex (p : Message -> bool) (messages : list Message) : Z :=
  findIndex_from 0 p messages.

(** A JavaScript completion: a value, or a thrown [TypeError] (reading a
    property of [undefined]). *)
Inductive completion (A : Type) :=
| Normal (a : A)
| TypeError.
Arguments Normal {A} a.
Arguments TypeError {A}.

(** The loop
<<
while (userMessageIndex >= 0 && messages[userMessageIndex].role !== "user") {
  userMessageIndex--
}
>>
    started at [userMessageIndex = n - 1]; it returns the final
    [userMessageIndex]. *)
Fixpoint scan_back (messages : list Message) (n : nat) : completion Z :=
  match n with
  | O => Normal (-1)
  | S i =>
      match messages !! i with
      | None => TypeError
      | Some m =>
          if decide (role m = user) then Normal (Z.of_nat i)
          else scan_back messages i
      end
  end.

(** What [handleRegenerateMessage] does: nothing, or the removal of the
    message and the resending of a user message's content. *)
Inductive regeneration :=
| Ignored
| Resend (messages' : list Message) (content : str).

(** [handleRegenerateMessage(messageId)], up to the call of
    [sendMessageInternal(userMessage.content, undefined, undefined)]. *)
Definition handleRegenerateMessage (messages : list Message) (messageId : str)
    : completion regeneration :=
  let messageIndex :=
    findIndex (fun m => bool_decide (id m = messageId)) messages in
  if messageIndex <=? 0 then Normal Ignored
  else
    let start := messageIndex - 1 in
    match scan_back messages (Z.to_nat (start + 1)) with
    | TypeError => TypeError
    | Normal userMessageIndex =>
        if userMessageIndex <? 0 then Normal Ignored
        else
          match messages !! Z.to_nat userMessageIndex with
          | None => TypeError
          | Some userMessage =>
              Normal (Resend (remove_message messageId messages)
                        (content userMessage))
          end
    end.

(** *** [sendMessageInternal] and [handleSendMessage] *)

(** A [File], as far as the components look at it. *)
Record File := {
  name : str;
  type : str
}.

(** The response of the backend to an image or CSV message. *)
Record ChatResponse := {
  message_id : str;
  response : str;
  response_visualization : option str;
  suggested_questions : option (list str)
}.

(** A promise of the API service, settled. *)
Inductive settled (A : Type) :=
| Resolved (a : A)
| Rejected.
Arguments Resolved {A} a.
Arguments Rejected {A}.

(** The callbacks [sendMessageStream] can invoke. *)
Inductive callback :=
| OnChunk (chunk : str)
| OnComplete (messageId : str)
| OnError (error : str).

(** The API service ([lib/api.ts]) as the handlers see it: what each call
    resolves to; for the stream, also the callbacks invoked before the
    promise settles. *)
Record ApiService := {
  sendImageMessage : str -> str -> File -> settled ChatResponse;
  sendCsvMessage : str -> str -> File -> settled ChatResponse;
  sendMessageStream : str -> str -> list callback * settled unit
}.

(** What the handlers read from the browser: the times [new Date()] gives
    for the user message, the reply and the fallback; the identifiers
    [Date.now().toString()], [`streaming-${Date.now()}`] and
    [(Date.now() + 1).toString()]; and [URL.createObjectURL]. *)
Record Browser := {
  sent_at : Z;
  replied_at : Z;
  failed_at : Z;
  userMessageId : str;
  streamingMessageId : str;
  fallbackId : str;
  createObjectURL : File -> str
}.

(** The state of [ChatWindow] that the handlers read and write. *)
Record State := {
  messages : list Message;
  isLoading : bool;
  sessionId : option str;
  isConnected : bool;
  suggestedQuestions : list str
}.

Definition set_messages (f : list Message -> list Message) (st : State)
    : State :=
  {| messages := f (messages st); isLoading := isLoading st;
     sessionId := sessionId st; isConnected := isConnected st;
     suggestedQuestions := suggestedQuestions st |}.

Definition set_isLoading (b : bool) (st : State) : State :=
  {| messages := messages st; isLoading := b;
     sessionId := sessionId st; isConnected := isConnected st;
     suggestedQuestions := suggestedQuestions st |}.

Definition set_suggestedQuestions (qs : list str) (st : State) : State :=
  {| messages := messages st; isLoading := isLoading st;
     sessionId := sessionId st; isConnected := isConnected st;
     suggestedQuestions := qs |}.

(** A reply of the assistant. *)
Definition assistant_message (message_id body : str) (at_time : Z)
    (viz : option str) (streaming : option bool) : Message :=
  {| id := message_id; role := assistant; content := body;
     timestamp := at_time; image := None; csvData := None;
     visualization := viz; isStreaming := streaming |}.

(** The fallback reply of the [catch] block. *)
Definition fallback_message (b : Browser) : Message :=
  assistant_message (fallbackId b)
    (lit "I'm having trouble connecting to the backend. Please make sure the API server is running at http://localhost:8000")
    (failed_at b) None None.

(** One callback of the stream, as an update of the message list. The
    toast of [OnError] is not modelled. *)
Definition run_callback (streamingMessageId : str) (c : callback)
    (prev : list Message) : list Message :=
  match c with
  | OnChunk chunk => on_chunk streamingMessageId chunk prev
  | OnComplete messageId => on_complete streamingMessageId messageId prev
  | OnError _ => remove_message streamingMessageId prev
  end.

(** [!sessionId || !isConnected]: no session, or an empty session
    identifier, or not connected. *)
Definition not_connected (st : State) : bool :=
  match sessionId st with
  | None => true
  | Some [] => true
  | Some (_ :: _) => negb (isConnected st)
  end.

(** [sendMessageInternal(content, imageFile, csvFile)]: the state once the
    call is over. Toasts and the console are not modelled. *)
Definition sendMessageInternal (api : ApiService) (b : Browser)
    (content : str) (imageFile csvFile : option File) (st : State) : State :=
  let failed (st' : State) :=
    set_messages (append_message (fallback_message b)) st' in
  let session := default [] (sessionId st) in
  let st1 := set_isLoading true st in
  let st2 :=
    if not_connected st then failed st1
    else
      match imageFile, csvFile with
      | Some file, _ =>
          match sendImageMessage api session content file with
          | Resolved r =>
              set_messages
                (append_message
                   (assistant_message (message_id r) (response r)
                      (replied_at b) None None)) st1
          | Rejected => failed st1
          end
      | None, Some file =>
          match sendCsvMessage api session content file with
          | Resolved r =>
              let st' :=
                set_messages
                  (append_message
                     (assistant_message (message_id r) (response r)
                        (replied_at b) (response_visualization r) None)) st1 in
              match suggested_questions r with
              | Some (q :: qs) => set_suggestedQuestions (q :: qs) st'
              | _ => st'
              end
          | Rejected => failed st1
          end
      | None, None =>
          let st' :=
            set_messages
              (append_message
                 (assistant_message (streamingMessageId b) []
                    (replied_at b) None (Some true))) st1 in
          let (callbacks, outcome) := sendMessageStream api session content in
          let st'' :=
            foldl (fun s c => set_messages (run_callback (streamingMessageId b) c) s)
              st' callbacks in
          match outcome with
          | Resolved _ => st''
          | Rejected => failed st''
          end
      end in
  set_isLoading false st2.

(** The user message of [handleSendMessage]. The CSV marker is the page
    emoji (a surrogate pair), a space and the file's name. *)
Definition user_message (b : Browser) (content : str)
    (imageFile csvFile : option File) : Message :=
  {| id := userMessageId b; role := user; content := content;
     timestamp := sent_at b;
     image := createObjectURL b <$> imageFile;
     csvData := (fun f => [55357; 56516; 32]%N ++ name f) <$> csvFile;
     visualization := None; isStreaming := None |}.

(** [handleSendMessage(content, imageFile, csvFile)] *)
Definition handleSendMessage (api : ApiService) (b : Browser)
    (content : str) (imageFile csvFile : option File) (st : State) : State :=
  match trim content with
  | [] => st
  | _ :: _ =>
      sendMessageInternal api b content imageFile csvFile
        (set_messages (append_message (user_message b content imageFile csvFile))
           st)
  end.

(** *** States to compare with *)

(** The state [st] once a call is over, with [l] for its messages. *)
Definition rested (st : State) (l : list Message) : State :=
  {| messages := l; isLoading := false; sessionId := sessionId st;
     isConnected := isConnected st;
     suggestedQuestions := suggestedQuestions st |}.

(** The placeholder of a streamed reply. *)
Definition placeholder (b : Browser) : Message :=
  assistant_message (streamingMessageId b) [] (replied_at b) None (Some true).

End ChatWindow.

(** ** The message bubble (components/message-bubble.tsx) *)

Module MessageBubble.

Import JS ChatWindow.

(** [interface MessageBubbleProps]. Of the action [onRegenerate], the
    identifier it regenerates is kept. *)
Record Props := {
  message : Message;
  onRegenerate : option str
}.

(** The comparator given to [React.memo]:
<<
prevProps.message.id === nextProps.message.id &&
prevProps.message.content === nextProps.message.content &&
prevProps.message.isStreaming === nextProps.message.isStreaming &&
prevProps.message.visualization === nextProps.message.visualization
>> *)
Definition areEqual (prevProps nextProps : Props) : bool :=
  bool_decide (id (message prevProps) = id (message nextProps))
  && bool_decide (content (message prevProps) = content (message nextProps))
  && bool_decide
       (isStreaming (message prevProps) = isStreaming (message nextProps))
  && bool_decide
       (visualization (message prevProps) = visualization (message nextProps)).

End MessageBubble.

(** ** The message list (components/message-list.tsx) *)

Module MessageList.

Import JS ChatWindow.

(** [isLastAssistantMessage], for the message at [index]:
<<
message.role === "assistant" &&
index === messages.length - 1 &&
!message.isStreaming
>> *)
Definition isLastAssistantMessage (messages : list Message)
    (message : Message) (index : nat) : bool :=
  bool_decide (role message = assistant)
  && bool_decide (Z.of_nat index = len messages - 1)
  && negb (default false (isStreaming message)).

(** The messages that are given an [onRegenerate] action, with their
    index, when the list is given [onRegenerateMessage]. *)
Definition regenerable (messages : list Message) : list (nat * Message) :=
  filter (fun im => isLastAssistantMessage messages im.2 im.1 = true)
    (imap (fun i m => (i, m)) messages).

(** The props of the bubbles, in the order of the messages, when the list
    is given [onRegenerateMessage]. *)
Definition bubbles (messages : list Message) : list MessageBubble.Props :=
  imap (fun index message =>
          {| MessageBubble.message := message;
             MessageBubble.onRegenerate :=
               if isLastAssistantMessage messages message index
               then Some (id message) else None |})
    messages.

End MessageList.

(** ** The message bubble and the chat input: CSV previews *)

Module CsvPreview.

Import JS.

(** The text under "CSV Data" in a bubble ([lines = 5]) and under "CSV Data
    Preview" in the input ([lines = 4]):
<<
{csv.split("\n").slice(0, lines).join("\n")}
{csv.split("\n").length > lines && "\n..."}
>> *)
Definition preview (lines : nat) (csv : str) : str :=
  join LF (take lines (split LF csv))
  ++ (if (lines <? length (split LF csv))%nat then LF :: lit "..." else []).

(** [message.csvData && (...)]: the preview is shown for a CSV text that is
    there and not empty. *)
Definition shown (lines : nat) (csv : option str) : option str :=
  match csv with
  | None => None
  | Some [] => None
  | Some (u :: t) => Some (preview lines (u :: t))
  end.

End CsvPreview.

(** ** The chat input (components/chat-input.tsx) *)

Module ChatInput.

Import JS ChatWindow.

(** The state of [ChatInput]. A preview is the result of a [FileReader],
    set when the read is over. *)
Record State := {
  input : str;
  imageFile : option File;
  imagePreview : option str;
  csvFile : option File;
  csvPreview : option str
}.

(** A read handed to a [FileReader]. *)
Inductive read :=
| readAsDataURL (file : File)
| readAsText (file : File).

(** The call [onSendMessage(input, imageFile || undefined,
    csvFile || undefined)]. *)
Record sent := {
  sent_content : str;
  sent_image : option File;
  sent_csv : option File
}.

(** [handleSend]: the new state, and the message handed to
    [onSendMessage] if one is. *)
Definition handleSend (st : State) : State * option sent :=
  match trim (input st) with
  | [] => (st, None)
  | _ :: _ =>
      ({| input := []; imageFile := None; imagePreview := None;
          csvFile := None; csvPreview := None |},
       Some {| sent_content := input st; sent_image := imageFile st;
               sent_csv := csvFile st |})
  end.

(** [handleKeyDown]: Enter without Shift sends. *)
Definition handleKeyDown (key : str) (shiftKey : bool) (st : State)
    : State * option sent :=
  if bool_decide (key = lit "Enter") && negb shiftKey then handleSend st
  else (st, None).

Definition set_image (file : File) (st : State) : State :=
  {| input := input st; imageFile := Some file;
     imagePreview := imagePreview st;
     csvFile := csvFile st; csvPreview := csvPreview st |}.

Definition set_csv (file : File) (st : State) : State :=
  {| input := input st; imageFile := imageFile st;
     imagePreview := imagePreview st;
     csvFile := Some file; csvPreview := csvPreview st |}.

(** [handleImageUpload], for the first file of the event if there is
    one. *)
Definition handleImageUpload (file : option File) (st : State)
    : State * option read :=
  match file with
  | Some f => (set_image f st, Some (readAsDataURL f))
  | None => (st, None)
  end.

(** [handleCsvUpload] *)
Definition handleCsvUpload (file : option File) (st : State)
    : State * option read :=
  match file with
  | Some f => (set_csv f st, Some (readAsText f))
  | None => (st, None)
  end.

(** [handleGeneralFileUpload]: an image by its type, else a CSV by its name
    or type, else nothing. *)
Definition handleGeneralFileUpload (file : option File) (st : State)
    : State * option read :=
  match file with
  | Some f =>
      if startsWith (type f) (lit "image/")
      then (set_image f st, Some (readAsDataURL f))
      else if endsWith (name f) (lit ".csv")
              || bool_decide (type f = lit "text/csv")
      then (set_csv f st, Some (readAsText f))
      else (st, None)
  | None => (st, None)
  end.

(** The send button is disabled by [!input.trim() || disabled]. *)
Definition send_disabled (disabled : bool) (st : State) : bool :=
  bool_decide (trim (input st) = []) || disabled.

End ChatInput.

(** ** A sample session *)

Module Session.

Import JS ChatWindow.

(** A browser whose clock moves on between the user message, the reply and
    the fallback. *)
Definition browser : Browser :=
  {| sent_at := 1700000000000; replied_at := 1700000000001;
     failed_at := 1700000000002;
     userMessageId := lit "1700000000000";
     streamingMessageId := lit "streaming-1700000000001";
     fallbackId := lit "1700000000003";
     createObjectURL := fun f => lit "blob:" ++ name f |}.

Definition answer : ChatResponse :=
  {| message_id := lit "m7"; response := lit "Done.";
     response_visualization := None; suggested_questions := None |}.

(** A backend that answers every attachment with [answer] and streams
    [stream]. *)
Definition backend (stream : list callback * settled ()) : ApiService :=
  {| sendImageMessage := fun _ _ _ => Resolved answer;
     sendCsvMessage := fun _ _ _ => Resolved answer;
     sendMessageStream := fun _ _ => stream |}.

(** A connected window that holds the messages [l]. *)
Definition connected_with (l : list Message) : State :=
  {| messages := l; isLoading := false; sessionId := Some (lit "s1");
     isConnected := true; suggestedQuestions := [] |}.

(** A window before the session is there. *)
Definition offline : State :=
  {| messages := []; isLoading := false; sessionId := None;
     isConnected := false; suggestedQuestions := [] |}.

Definition question : Message :=
  {| id := lit "1"; role := user; content := lit "How many rows?";
     timestamp := 1699999999000; image := None; csvData := None;
     visualization := None; isStreaming := None |}.

Definition reply : Message :=
  assistant_message (lit "m1") (lit "Ten.") 1699999999001 None (Some false).

(** Three streams: one that completes, one that reports an error, one
    whose promise is rejected. *)
Definition greeting : list callback * settled () :=
  ((OnChunk <$> [lit "Hel"; lit "lo"]) ++ [OnComplete (lit "m2")],
   Resolved ()).


Definition dropped : list callback * settled () :=
  (OnChunk <$> [lit "Hel"], Rejected).

(** An image whose name ends in [.csv], and a CSV file. *)
Definition photo : File := {| name := lit "photo.csv"; type := lit "image/png" |}.
Definition table : File := {| name := lit "sales.csv"; type := lit "text/csv" |}.

(** A form with a question typed and both files attached. *)
Definition form : ChatInput.State :=
  {| ChatInput.input := lit " How many rows? ";
     ChatInput.imageFile := Some photo; ChatInput.imagePreview := None;
     ChatInput.csvFile := Some table; ChatInput.csvPreview := None |}.

(** A CSV text of three lines. *)
Definition csv : str := lit "a,b" ++ LF :: lit "1,2" ++ LF :: lit "3,4".

End Session.

(** * Properties *)

(** ** Python list primitives *)

Module PyFacts.


Lemma len_app {A} (l k : list A) : len (l ++ k) = len l + len k.
Proof. unfold len. rewrite length_app. lia. Qed.

(** Inside the list, [pop] removes the element at that index. *)
Lemma pop_in_range {A} (l : list A) (i : Z) :
  0 <= i < len l ->
  exists x, l !! Z.to_nat i = Some x /\
            pop l i = Returns (x, delete (Z.to_nat i) l).
Proof.
  intros Hi. unfold pop.
  destruct (Z.ltb_spec i 0) as [?|_]; [lia|].
  destruct (Z.ltb_spec i 0) as [?|_]; [lia|].
  destruct (Z.leb_spec (len l) i) as [?|_]; [lia|]. cbn.
  destruct (lookup_lt_is_Some_2 l (Z.to_nat i)) as [x Hx].
  { unfold len in Hi. lia. }
  exists x. by rewrite Hx.
Qed.

(** Whatever the index, a [pop] that returns has shortened the list by
    one. *)
Lemma pop_returns_length {A} (l l' : list A) (i : Z) (x : A) :
  pop l i = Returns (x, l') -> length l = S (length l').
Proof.
  unfold pop. destruct (_ || _); [discriminate|].
  destruct (l !! _) eqn:Hx; [|discriminate].
  intros [= _ <-]. rewrite length_delete by eauto.
  apply lookup_lt_Some in Hx. lia.
Qed.

(** A bound inside the list is taken as it is. *)
Lemma slice_index_in_range (n i : Z) :
  0 <= i <= n -> slice_index n i = Z.to_nat i.
Proof.
  intros Hi. unfold slice_index.
  destruct (Z.ltb_spec i 0); [lia|]. f_equal. lia.
Qed.

(** A negative bound inside the list counts from the end. *)
Lemma slice_index_from_end (n i : Z) :
  0 < i <= n -> slice_index n (- i) = Z.to_nat (n - i).
Proof.
  intros Hi. unfold slice_index.
  destruct (Z.ltb_spec (- i) 0); [|lia]. f_equal. lia.
Qed.

End PyFacts.

(** ** The sliding window *)

Module ContextWindowFacts.

Import PyFacts ContextWindow.

Section Loop.

Context {Message : Type}.
Variable estimate_tokens : list Message -> Z.
Variable TOKEN_LIMIT : Z.

#[local] Abbreviation loop :=
  (remove_from_middle estimate_tokens TOKEN_LIMIT).

(** While the loop runs under a non-negative [preserve], the index it
    pops lies after the preserved messages and before the last one. *)
Lemma middle_index_bounds (preserve : Z) (result : list Message) :
  0 <= preserve -> preserve + 2 < len result ->
  preserve + 1 <= middle_index preserve result <= len result - 2.
Proof.
  intros Hp Hlen. unfold middle_index.
  Z.div_mod_to_equations. lia.
Qed.

(** The fuel given by [sliding_window_run] is never used up, whatever
    the configuration. *)
Lemma remove_from_middle_fuel (fuel : nat) (preserve : Z)
    (result : list Message) (tokens : Z) :
  (length result <= fuel)%nat ->
  loop fuel preserve result tokens <> OutOfFuel.
Proof.
  revert result tokens.
  induction fuel as [|fuel IH]; intros result tokens Hfuel; simpl.
  - destruct (_ && _); [|discriminate].
    destruct (pop _ _) as [[x r]| |] eqn:Hpop; try discriminate.
    + apply pop_returns_length in Hpop. lia.
    + unfold pop in Hpop. destruct (_ || _); [discriminate|].
      destruct (_ !! _); discriminate.
  - destruct (_ && _); [|discriminate].
    destruct (pop _ _) as [[x r]| |] eqn:Hpop; try discriminate.
    + apply IH. apply pop_returns_length in Hpop. lia.
    + unfold pop in Hpop. destruct (_ || _); [discriminate|].
      destruct (_ !! _); discriminate.
Qed.

(** What the loop leaves, under a non-negative [preserve]: it returns;
    the messages up to index [preserve] stay in place and the rest is
    thinned out in order; it stops at [preserve + 2] messages or as soon
    as [tokens] is within the limit; and it removes at least one message
    whenever its condition holds on entry. *)
Lemma remove_from_middle_spec (fuel : nat) (preserve : Z)
    (result : list Message) (tokens : Z) :
  0 <= preserve -> (length result <= fuel)%nat ->
  exists result' tokens',
    loop fuel preserve result tokens = Returns (result', tokens') /\
    (exists rest,
        result' = take (S (Z.to_nat preserve)) result ++ rest /\
        rest `sublist_of` drop (S (Z.to_nat preserve)) result) /\
    Z.min (len result) (preserve + 2) <= len result' <= len result /\
    (tokens' <= TOKEN_LIMIT \/ len result' <= preserve + 2) /\
    (TOKEN_LIMIT < tokens -> preserve + 2 < len result ->
     len result' < len result) /\
    (tokens <= TOKEN_LIMIT \/ len result <= preserve + 2 ->
     result' = result /\ tokens' = tokens).
Proof.
  intros Hp. revert result tokens.
  induction fuel as [|fuel IH]; intros result tokens Hfuel.
  - (* no fuel: the list is empty, the condition is false *)
    assert (len result = 0) as Hlen by (unfold len; lia).
    exists result, tokens. simpl.
    destruct (Z.ltb_spec (preserve + 2) (len result)); [lia|].
    rewrite andb_false_r. split; [done|].
    split; [|repeat split; auto; lia].
    exists (drop (S (Z.to_nat preserve)) result).
    by rewrite take_drop.
  - simpl.
    destruct (Z.ltb_spec TOKEN_LIMIT tokens) as [Htok|Htok];
      destruct (Z.ltb_spec (preserve + 2) (len result)) as [Hlen|Hlen];
      cbn [andb];
      try (exists result, tokens; split; [done|];
           split; [exists (drop (S (Z.to_nat preserve)) result);
                   by rewrite take_drop|];
           repeat split; auto; lia).
    pose proof (middle_index_bounds preserve result Hp Hlen) as Hmid.
    destruct (pop_in_range result (middle_index preserve result))
      as (x & Hx & ->); [lia|].
    set (j := Z.to_nat (middle_index preserve result)) in *.
    assert (length (delete j result) = (length result - 1)%nat) as Hdel.
    { apply length_delete. eauto. }
    destruct (IH (delete j result) (tokens - estimate_tokens [x]))
      as (r & t & -> & (rest & Hr & Hrest) & Hbounds & Hstop & _ & _);
      [lia|].
    assert (len (delete j result) = len result - 1) as Hdel'
      by (unfold len in *; lia).
    assert (S (Z.to_nat preserve) <= j)%nat as Hj by lia.
    exists r, t. split; [done|]. split; [|repeat split; try lia; auto].
    exists rest. split.
    + rewrite Hr. f_equal.
      rewrite delete_take_drop, take_app_le
        by (rewrite length_take; unfold len in *; lia).
      rewrite take_take. f_equal. lia.
    + etrans; [exact Hrest|].
      rewrite delete_take_drop, drop_app_le
        by (rewrite length_take; unfold len in *; lia).
      rewrite <- (take_drop (j - S (Z.to_nat preserve))
                    (drop (S (Z.to_nat preserve)) result)).
      apply sublist_app.
      * rewrite take_drop_commute.
        by replace (S (Z.to_nat preserve) + (j - S (Z.to_nat preserve)))%nat
          with j by lia.
      * rewrite drop_drop.
        replace (S (Z.to_nat preserve) + (j - S (Z.to_nat preserve)))%nat
          with j by lia.
        replace (S j) with (j + 1)%nat by lia.
        rewrite <- drop_drop. apply sublist_drop.
Qed.

End Loop.

Section Select.

Context {Message : Type}.
Variable estimate_tokens : list Message -> Z.

#[local] Abbreviation run := (sliding_window_run estimate_tokens).
#[local] Abbreviation select := (select estimate_tokens).

(** [select] returns exactly when the run does, with the run's
    messages. *)
Lemma select_run (h : list Message) (cfg : Config)
    (result : list Message) (tokens : option Z) :
  run (maxTokens cfg) h (maxMessages cfg) (preserveFirst cfg)
    = Returns (result, tokens) ->
  select h cfg = Returns (metadata estimate_tokens h result tokens).
Proof. unfold ContextWindow.select. by intros ->. Qed.

(** The early return. *)
Lemma run_within_limit (limit : Z) (h : list Message) (max_msgs preserve : Z) :
  len h <= max_msgs ->
  run limit h max_msgs preserve = Returns (h, None).
Proof.
  intros Hlen. unfold sliding_window_run.
  by destruct (Z.leb_spec (len h) max_msgs); [|lia].
Qed.

(** Under a well-formed budget a history that is too long is cut to the
    first [preserve] and the last [max_msgs - preserve] messages:
    [max_msgs] in all. *)
Lemma initial_window_well_formed (h : list Message) (max_msgs preserve : Z) :
  0 <= preserve < max_msgs -> max_msgs < len h ->
  initial_window h max_msgs preserve
    = take (Z.to_nat preserve) h
        ++ drop (Z.to_nat (len h - (max_msgs - preserve))) h /\
  len (initial_window h max_msgs preserve) = max_msgs.
Proof.
  intros Hp Hmax. unfold initial_window, slice_to, slice_from.
  rewrite slice_index_in_range, slice_index_from_end by lia.
  split; [done|].
  rewrite len_app. unfold len in *.
  rewrite length_take, length_drop. lia.
Qed.

(** Once the history is too long, a run with a non-negative [preserve]
    returns what the loop leaves of the initial window. *)
Lemma run_over_limit (limit : Z) (h : list Message) (max_msgs preserve : Z) :
  0 <= preserve -> max_msgs < len h ->
  let w0 := initial_window h max_msgs preserve in
  exists result tokens,
    run limit h max_msgs preserve = Returns (result, Some tokens) /\
    (exists rest,
        result = take (S (Z.to_nat preserve)) w0 ++ rest /\
        rest `sublist_of` drop (S (Z.to_nat preserve)) w0) /\
    Z.min (len w0) (preserve + 2) <= len result <= len w0 /\
    (tokens <= limit \/ len result <= preserve + 2) /\
    (limit < estimate_tokens w0 -> preserve + 2 < len w0 ->
     len result < len w0) /\
    (estimate_tokens w0 <= limit \/ len w0 <= preserve + 2 ->
     result = w0 /\ tokens = estimate_tokens w0).
Proof.
  intros Hp Hmax w0. unfold sliding_window_run.
  destruct (Z.leb_spec (len h) max_msgs); [lia|]. fold w0.
  destruct (remove_from_middle_spec estimate_tokens limit (length w0)
              preserve w0 (estimate_tokens w0) Hp (le_n _))
    as (result & tokens & -> & Hspec).
  by exists result, tokens.
Qed.

(** The same, spelled out for a well-formed budget: the preserved
    opening followed by a thinned-out tail of the recent messages. *)
Lemma run_well_formed (limit : Z) (h : list Message) (max_msgs preserve : Z) :
  0 <= preserve < max_msgs -> max_msgs < len h ->
  let opening := take (Z.to_nat preserve) h in
  let recent := drop (Z.to_nat (len h - (max_msgs - preserve))) h in
  exists tail tokens,
    run limit h max_msgs preserve = Returns (opening ++ tail, Some tokens) /\
    tail `sublist_of` recent /\
    Z.min max_msgs (preserve + 2) <= len (opening ++ tail) <= max_msgs /\
    (tokens <= limit \/ len (opening ++ tail) <= preserve + 2) /\
    (limit < estimate_tokens (opening ++ recent) -> preserve + 2 < max_msgs ->
     len (opening ++ tail) < max_msgs) /\
    (estimate_tokens (opening ++ recent) <= limit \/ max_msgs <= preserve + 2 ->
     tail = recent /\ tokens = estimate_tokens (opening ++ recent)).
Proof.
  intros Hp Hmax opening recent.
  destruct (initial_window_well_formed h max_msgs preserve Hp Hmax)
    as [Hw0 Hlen0].
  destruct (run_over_limit limit h max_msgs preserve (proj1 Hp) Hmax)
    as (result & tokens & Hrun & (rest & Hres & Hrest) & Hb & Hstop & Hlt & Hsame).
  rewrite Hlen0 in *. rewrite Hw0 in *. fold opening recent in Hres, Hrest, Hlt, Hsame.
  assert (length opening = Z.to_nat preserve) as Hopen.
  { unfold opening. rewrite length_take. unfold len in *. lia. }
  rewrite take_app_ge, Hopen in Hres by lia.
  rewrite drop_app_ge, Hopen in Hrest by lia.
  replace (S (Z.to_nat preserve) - Z.to_nat preserve)%nat with 1%nat
    in Hres, Hrest by lia.
  exists (take 1 recent ++ rest), tokens.
  rewrite <- (assoc_L (++)) in Hres. subst result.
  split; [done|]. split.
  { rewrite <- (take_drop 1 recent) at 2. by apply sublist_app. }
  split; [lia|]. split; [done|]. split; [done|].
  intros Hc. destruct (Hsame Hc) as [Heq ->]. split; [|done].
  by apply (inj (app opening)) in Heq.
Qed.

(** The model's fuel never runs out: a call returns or raises. *)
Lemma apply_sliding_window_fuel (limit : Z) (h : list Message)
    (max_msgs preserve : Z) :
  apply_sliding_window estimate_tokens limit h max_msgs preserve <> OutOfFuel.
Proof.
  unfold apply_sliding_window, sliding_window_run.
  destruct (_ <=? _); [discriminate|].
  pose proof (remove_from_middle_fuel estimate_tokens limit
                (length (initial_window h max_msgs preserve)) preserve
                (initial_window h max_msgs preserve)
                (estimate_tokens (initial_window h max_msgs preserve))
                (le_n _)) as Hfuel.
  destruct (remove_from_middle _ _ _ _ _ _) as [[r t]| |]; done.
Qed.

(** ** Claims about [select] *)

(** C1. A history of at most [maxMessages] messages is returned whole:
    the same messages in the same order, nothing removed and
    [truncated = false], whatever the preserved count and the token
    budget. *)
Theorem select_within_limit (h : list Message) (cfg : Config) :
  len h <= maxMessages cfg ->
  apply_sliding_window estimate_tokens (maxTokens cfg) h
    (maxMessages cfg) (preserveFirst cfg) = Returns h /\
  exists w,
    select h cfg = Returns w /\
    window w = h /\ kept w = len h /\ removed w = 0 /\
    truncated w = false.
Proof.
  intros Hlen. unfold apply_sliding_window.
  pose proof (run_within_limit (maxTokens cfg) h _ (preserveFirst cfg) Hlen)
    as Hrun.
  rewrite Hrun. split; [done|].
  eexists. split; [by apply select_run|]. cbn.
  split; [done|]. split; [done|]. split; [lia|].
  apply Z.ltb_ge. lia.
Qed.

(** Where the order and preservation invariants do hold. When the history
    fits in [maxMessages] or the budget is well formed
    ([0 <= preserveFirst < maxMessages]), [select] returns a window whose messages are a subsequence of the history in its
    order, and when the history has more than [preserveFirst] messages the
    first [preserveFirst] of them open the window. *)
Theorem select_subsequence_well_formed (h : list Message) (cfg : Config) :
  len h <= maxMessages cfg \/ well_formed cfg ->
  exists w,
    select h cfg = Returns w /\
    window w `sublist_of` h /\
    (preserveFirst cfg < len h ->
     take (Z.to_nat (preserveFirst cfg)) h `prefix_of` window w).
Proof.
  intros Hcfg.
  destruct (Z.le_gt_cases (len h) (maxMessages cfg)) as [Hlen|Hlen].
  - eexists. split; [apply select_run; by apply run_within_limit|]. cbn.
    split; [done|]. intros _. apply prefix_take.
  - destruct Hcfg as [?|Hwf]; [lia|]. unfold well_formed in Hwf.
    destruct (run_well_formed (maxTokens cfg) h _ _ Hwf)
      as (tail & tokens & Hrun & Htail & _); [lia|].
    eexists. split; [apply select_run, Hrun|]. cbn. split.
    + rewrite <- (take_drop (Z.to_nat (preserveFirst cfg)) h) at 2.
      apply sublist_app; [done|]. etrans; [exact Htail|].
      replace (Z.to_nat (len h - (maxMessages cfg - preserveFirst cfg)))
        with (Z.to_nat (preserveFirst cfg)
              + Z.to_nat (len h - maxMessages cfg))%nat by lia.
      rewrite <- drop_drop. apply sublist_drop.
    + intros _. by apply prefix_app_r.
Qed.

(** C3, as the code has it. When the history fits in [maxMessages] or the
    budget is well formed, the messages selected are a fixed point:
    running [select] again on the window's messages returns the same
    messages, and as many. The second run has nothing to remove, so it
    reports [removed = 0] and [truncated = false]; the two windows are
    equal as values exactly when the first run did not truncate either. *)
Theorem select_idempotent_messages (h : list Message) (cfg : Config) :
  len h <= maxMessages cfg \/ well_formed cfg ->
  exists w w',
    select h cfg = Returns w /\
    select (window w) cfg = Returns w' /\
    window w' = window w /\ kept w' = kept w /\
    removed w' = 0 /\ truncated w' = false /\
    (w' = w <-> len h <= maxMessages cfg).
Proof.
  intros Hcfg.
  destruct (Z.le_gt_cases (len h) (maxMessages cfg)) as [Hlen|Hlen].
  - pose proof (select_run h cfg h None
                  (run_within_limit _ h _ _ Hlen)) as Hsel.
    eexists _, _. split; [exact Hsel|]. cbn. split; [exact Hsel|]. cbn.
    split; [done|]. split; [done|]. split; [lia|].
    split; [apply Z.ltb_ge; lia|done].
  - destruct Hcfg as [?|Hwf]; [lia|]. unfold well_formed in Hwf.
    destruct (run_well_formed (maxTokens cfg) h _ _ Hwf)
      as (tail & tokens & Hrun & _ & Hb & _); [lia|].
    set (result := take (Z.to_nat (preserveFirst cfg)) h ++ tail) in *.
    eexists _, _. split; [apply select_run, Hrun|]. cbn.
    split; [apply select_run, run_within_limit; lia|]. cbn.
    split; [done|]. split; [done|]. split; [lia|].
    split; [apply Z.ltb_ge; lia|].
    split; [|lia]. intros Heq.
    apply (f_equal removed) in Heq. cbn in Heq. lia.
Qed.

(** C4, as the code has it. On a 25-message history with
    [maxMessages = 20] and [preserveFirst = 2] the window opens with
    messages 1 and 2, leaves out messages 3 to 7, keeps a subsequence
    of messages 8 to 25 and reports [truncated = true]. It has exactly
    20 messages when the estimate of those 20 is within the token
    budget; when the budget is exceeded the loop removes further
    messages and between 4 and 19 are left. When no message occurs twice
    in the history, messages 3 to 7 are nowhere in the window. *)
Theorem scenario_A_window (h : list Message) (budget : Z) :
  length h = 25%nat ->
  exists tail w,
    select h {| maxMessages := 20; preserveFirst := 2; maxTokens := budget |}
      = Returns w /\
    window w = take 2 h ++ tail /\
    tail `sublist_of` drop 7 h /\
    truncated w = true /\
    4 <= kept w <= 20 /\
    (estimate_tokens (take 2 h ++ drop 7 h) <= budget ->
     window w = take 2 h ++ drop 7 h /\ kept w = 20) /\
    (budget < estimate_tokens (take 2 h ++ drop 7 h) -> kept w <= 19) /\
    (NoDup h -> forall m, m ∈ take 5 (drop 2 h) -> m ∉ window w).
Proof.
  intros Hlen.
  assert (len h = 25) as Hlen' by (unfold len; lia).
  destruct (run_well_formed budget h 20 2)
    as (tail & tokens & Hrun & Htail & Hb & _ & Hlt & Hsame); [lia..|].
  rewrite Hlen' in *.
  change (Z.to_nat 2) with 2%nat in *.
  change (Z.to_nat (25 - (20 - 2))) with 7%nat in *.
  exists tail. eexists. split; [apply select_run, Hrun|]. cbn.
  split; [done|]. split; [done|].
  split; [apply Z.ltb_lt; lia|]. split; [lia|]. split; [|split].
  - intros Hfit. destruct Hsame as [-> _]; [by left|]. split; [done|].
    rewrite len_app. unfold len. rewrite length_take, length_drop. lia.
  - intros Hover. specialize (Hlt Hover). lia.
  - intros Hnd m Hm Hin.
    rewrite <- (take_drop 2 h), <- (take_drop 5 (drop 2 h)), drop_drop in Hnd.
    apply NoDup_app in Hnd as (_ & Hopening & Hrest).
    apply NoDup_app in Hrest as (_ & Hmiddle & _).
    apply elem_of_app in Hin as [Hin|Hin].
    + apply (Hopening m Hin), elem_of_app. by left.
    + apply (Hmiddle m Hm). by apply (sublist_subseteq _ _ Htail).
Qed.

(** C5, as the code has it. The code has no clamping step and no guard
    on [maxMessages]; the budget is used as configured. With
    [preserveFirst >= 0] it never raises: [select] returns a window, and
    the first [preserveFirst] messages of the history open it. *)
Theorem select_never_raises (h : list Message) (cfg : Config) :
  0 <= preserveFirst cfg ->
  exists w,
    select h cfg = Returns w /\
    take (Z.to_nat (preserveFirst cfg)) h `prefix_of` window w.
Proof.
  intros Hp.
  destruct (Z.le_gt_cases (len h) (maxMessages cfg)) as [Hlen|Hlen].
  - eexists. split; [apply select_run; by apply run_within_limit|]. cbn.
    apply prefix_take.
  - destruct (run_over_limit (maxTokens cfg) h (maxMessages cfg) _ Hp)
      as (result & tokens & Hrun & (rest & -> & _) & _); [lia|].
    eexists. split; [apply select_run, Hrun|]. cbn.
    unfold initial_window, slice_to.
    set (p := Z.to_nat (preserveFirst cfg)).
    assert (take (slice_index (len h) (preserveFirst cfg)) h = take p h)
      as ->.
    { unfold slice_index. destruct (Z.ltb_spec (preserveFirst cfg) 0); [lia|].
      destruct (Z.le_gt_cases (preserveFirst cfg) (len h)).
      - f_equal. lia.
      - unfold len in *. rewrite !take_ge; [done|lia..]. }
    rewrite take_app_ge by (rewrite length_take; lia).
    rewrite <- (assoc_L (++)). by eexists.
Qed.

(** C6. The token budget is not a postcondition. Take an estimator that
    charges something for every non-empty window (the documented one
    charges 4 tokens of overhead per message) and a budget of zero
    tokens or less: under any well-formed budget the window returned
    for a non-empty history costs more than [maxTokens]. A history
    within [maxMessages] is returned whole, unchecked; a longer one is
    never cut below [preserveFirst + 2] messages (or [maxMessages], if
    that is less). *)
Theorem token_budget_not_enforced (h : list Message) (cfg : Config) :
  (forall l, l <> [] -> 0 < estimate_tokens l) ->
  well_formed cfg -> h <> [] -> maxTokens cfg <= 0 ->
  exists w,
    select h cfg = Returns w /\
    maxTokens cfg < estimate_tokens (window w) /\
    (len h <= maxMessages cfg -> window w = h) /\
    (maxMessages cfg < len h ->
     Z.min (maxMessages cfg) (preserveFirst cfg + 2) <= kept w).
Proof.
  intros Hpos Hwf Hne Hbudget. unfold well_formed in Hwf.
  destruct (Z.le_gt_cases (len h) (maxMessages cfg)) as [Hlen|Hlen].
  - eexists. split; [apply select_run; by apply run_within_limit|]. cbn.
    split; [|split; [done|lia]].
    specialize (Hpos h Hne). lia.
  - destruct (run_well_formed (maxTokens cfg) h _ _ Hwf)
      as (tail & tokens & Hrun & _ & Hb & _); [lia|].
    eexists. split; [apply select_run, Hrun|]. cbn.
    split; [|split; [intros ?; exfalso; lia|intros _; apply Hb]].
    match goal with |- _ < estimate_tokens ?l =>
      assert (l <> []) as Hl; [|specialize (Hpos l Hl); lia] end.
    intros Hnil. rewrite Hnil in Hb. unfold len in Hb. cbn in Hb. lia.
Qed.

End Select.

(** C1 at Scenario B: ten messages under the default budget. *)
Lemma select_within_limit_witness :
  len (numbered 10) <= maxMessages default_config /\
  apply_sliding_window flat_estimate 100000 (numbered 10) 20 2
    = Returns (numbered 10) /\
  exists w,
    ContextWindow.select flat_estimate (numbered 10) default_config
      = Returns w /\
    window w = numbered 10 /\ kept w = 10 /\ removed w = 0 /\
    truncated w = false.
Proof.
  split; [vm_compute; discriminate|].
  apply (select_within_limit flat_estimate (numbered 10) default_config).
  vm_compute; discriminate.
Defined.

(** C2 at an input where the code misses it. With
    [preserveFirst = maxMessages = 1] the count of recent messages is 0 and
    [messages[-0:]] is the whole list, not the empty one the comment "Take
    most recent (max_msgs - preserve)" stands for: the two-message history
    [1; 2] comes back as [1; 1; 2], which is no subsequence of it. *)
Lemma select_subsequence_counterexample :
  exists w,
    ContextWindow.select flat_estimate [1; 2]
      {| maxMessages := 1; preserveFirst := 1; maxTokens := 100000 |}
      = Returns w /\
    window w = [1; 1; 2] /\
    ~ window w `sublist_of` [1; 2].
Proof.
  eexists. split; [reflexivity|]. split; [reflexivity|]. cbn.
  intros Hsub. apply sublist_length in Hsub. vm_compute in Hsub. lia.
Qed.

(** The guide's worked example: twelve messages, eight kept, the first two
    preserved. *)
Lemma select_subsequence_well_formed_witness :
  (len (numbered 12) <= 8 \/
   well_formed {| maxMessages := 8; preserveFirst := 2; maxTokens := 50 |}) /\
  exists w,
    ContextWindow.select flat_estimate (numbered 12)
      {| maxMessages := 8; preserveFirst := 2; maxTokens := 50 |}
      = Returns w /\
    window w `sublist_of` numbered 12 /\
    (2 < len (numbered 12) -> take 2 (numbered 12) `prefix_of` window w).
Proof.
  split; [right; unfold well_formed; cbn; lia|].
  apply (select_subsequence_well_formed flat_estimate (numbered 12)
           {| maxMessages := 8; preserveFirst := 2; maxTokens := 50 |}).
  right; unfold well_formed; cbn; lia.
Defined.

(** C3 as stated fails, in two ways. Under the well-formed budget
    (2 messages, 1 preserved) the history [1; 2; 3] is cut to [1; 3] and
    reported truncated; run again on [1; 3], [select] reports it not
    truncated, so the two windows differ as values. And with
    [preserveFirst = maxMessages = 1] even the messages change: [1; 2]
    gives [1; 1; 2], which gives [1; 1; 1; 2]. *)
Lemma select_idempotent_counterexample :
  (exists w w',
      let cfg := {| maxMessages := 2; preserveFirst := 1;
                    maxTokens := 100000 |} in
      ContextWindow.select flat_estimate [1; 2; 3] cfg = Returns w /\
      ContextWindow.select flat_estimate (window w) cfg = Returns w' /\
      truncated w = true /\ truncated w' = false /\ w' <> w) /\
  (exists w w',
      let cfg := {| maxMessages := 1; preserveFirst := 1;
                    maxTokens := 100000 |} in
      ContextWindow.select flat_estimate [1; 2] cfg = Returns w /\
      ContextWindow.select flat_estimate (window w) cfg = Returns w' /\
      window w = [1; 1; 2] /\ window w' = [1; 1; 1; 2] /\
      window w' <> window w).
Proof.
  split; eexists _, _; cbn zeta.
  - split; [reflexivity|]. split; [reflexivity|].
    split; [reflexivity|]. split; [reflexivity|]. discriminate.
  - split; [reflexivity|]. split; [reflexivity|].
    split; [reflexivity|]. split; [reflexivity|]. discriminate.
Qed.

(** C3 on the guide's worked example, with a budget that makes the loop
    remove messages. *)
Lemma select_idempotent_messages_witness :
  let cfg := {| maxMessages := 8; preserveFirst := 2; maxTokens := 50 |} in
  (len (numbered 12) <= maxMessages cfg \/ well_formed cfg) /\
  exists w w',
    ContextWindow.select flat_estimate (numbered 12) cfg = Returns w /\
    ContextWindow.select flat_estimate (window w) cfg = Returns w' /\
    window w' = window w /\ kept w' = kept w /\
    removed w' = 0 /\ truncated w' = false /\
    (w' = w <-> len (numbered 12) <= maxMessages cfg).
Proof.
  intros cfg. split; [right; unfold well_formed; cbn; lia|].
  apply (select_idempotent_messages flat_estimate (numbered 12) cfg).
  right; unfold well_formed; cbn; lia.
Defined.

(** C4 as stated fails: with 10 tokens per message and a budget of 100
    tokens the 20-message window (200 tokens) exceeds the limit, and the
    loop cuts it down to 10 messages. *)
Lemma scenario_A_counterexample :
  100 < flat_estimate (initial_window (numbered 25) 20 2) /\
  ContextWindow.select flat_estimate (numbered 25)
    {| maxMessages := 20; preserveFirst := 2; maxTokens := 100 |}
    = Returns {| window := [1; 2; 8; 9; 10; 11; 22; 23; 24; 25];
                 considered := 25; kept := 10; removed := 15;
                 estimatedTokens := 100; truncated := true |}.
Proof. split; vm_compute; reflexivity. Qed.

(** C4 on the same history and budget. *)
Lemma scenario_A_window_witness :
  length (numbered 25) = 25%nat /\
  exists tail w,
    ContextWindow.select flat_estimate (numbered 25)
      {| maxMessages := 20; preserveFirst := 2; maxTokens := 100 |}
      = Returns w /\
    window w = take 2 (numbered 25) ++ tail /\
    tail `sublist_of` drop 7 (numbered 25) /\
    truncated w = true /\
    4 <= kept w <= 20 /\
    (flat_estimate (take 2 (numbered 25) ++ drop 7 (numbered 25)) <= 100 ->
     window w = take 2 (numbered 25) ++ drop 7 (numbered 25) /\ kept w = 20) /\
    (100 < flat_estimate (take 2 (numbered 25) ++ drop 7 (numbered 25)) ->
     kept w <= 19) /\
    (NoDup (numbered 25) ->
     forall m, m ∈ take 5 (drop 2 (numbered 25)) -> m ∉ window w).
Proof.
  split; [reflexivity|].
  apply (scenario_A_window flat_estimate (numbered 25) 100). reflexivity.
Defined.

(** C5 as stated fails on each of its parts. With
    [preserveFirst = maxMessages = 2] the history [1; 2; 3] gives
    [1; 2; 1; 2; 3], not the [1; 3] of [preserveFirst = 1]; with
    [maxMessages = 0] the window is the whole history, reported not
    truncated; and a negative [preserveFirst] can raise [IndexError]. *)
Lemma select_clamp_counterexample :
  messages_of (ContextWindow.select flat_estimate [1; 2; 3]
    {| maxMessages := 2; preserveFirst := 2; maxTokens := 100000 |})
    = Returns [1; 2; 1; 2; 3] /\
  messages_of (ContextWindow.select flat_estimate [1; 2; 3]
    {| maxMessages := 2; preserveFirst := 1; maxTokens := 100000 |})
    = Returns [1; 3] /\
  (exists w,
      ContextWindow.select flat_estimate [1; 2; 3]
        {| maxMessages := 0; preserveFirst := 0; maxTokens := 100000 |}
        = Returns w /\
      window w = [1; 2; 3] /\ truncated w = false) /\
  ContextWindow.select flat_estimate [1; 2; 3]
    {| maxMessages := 2; preserveFirst := -10; maxTokens := 0 |}
    = Raises IndexError.
Proof.
  split; [reflexivity|]. split; [reflexivity|].
  split; [|reflexivity].
  eexists. split; [reflexivity|]. split; reflexivity.
Qed.

(** C5 at [preserveFirst = maxMessages = 2]. *)
Lemma select_never_raises_witness :
  let cfg := {| maxMessages := 2; preserveFirst := 2; maxTokens := 0 |} in
  0 <= preserveFirst cfg /\
  exists w,
    ContextWindow.select flat_estimate [1; 2; 3] cfg = Returns w /\
    take (Z.to_nat (preserveFirst cfg)) [1; 2; 3] `prefix_of` window w.
Proof.
  intros cfg. split; [cbn; lia|].
  apply (select_never_raises flat_estimate [1; 2; 3] cfg). cbn; lia.
Defined.

(** The flat estimator charges every non-empty window. *)
Lemma flat_estimate_positive (l : list Z) : l <> [] -> 0 < flat_estimate l.
Proof. destruct l; [done|]. intros _. unfold flat_estimate, len. cbn. lia. Qed.

(** C6 on the guide's worked example with no token budget at all. *)
Lemma token_budget_not_enforced_witness :
  let cfg := {| maxMessages := 8; preserveFirst := 2; maxTokens := 0 |} in
  (forall l, l <> [] -> 0 < flat_estimate l) /\
  well_formed cfg /\ numbered 12 <> [] /\ maxTokens cfg <= 0 /\
  exists w,
    ContextWindow.select flat_estimate (numbered 12) cfg = Returns w /\
    maxTokens cfg < flat_estimate (window w) /\
    (len (numbered 12) <= maxMessages cfg -> window w = numbered 12) /\
    (maxMessages cfg < len (numbered 12) ->
     Z.min (maxMessages cfg) (preserveFirst cfg + 2) <= kept w).
Proof.
  intros cfg.
  assert (well_formed cfg) as Hwf by (unfold well_formed; cbn; lia).
  assert (numbered 12 <> []) as Hne by discriminate.
  assert (maxTokens cfg <= 0) as Hbudget by (cbn; lia).
  split; [exact flat_estimate_positive|].
  split; [exact Hwf|]. split; [exact Hne|]. split; [exact Hbudget|].
  exact (token_budget_not_enforced flat_estimate (numbered 12) cfg
           flat_estimate_positive Hwf Hne Hbudget).
Defined.

End ContextWindowFacts.

(** ** The response cache *)

Module ResponseCacheFacts.

Import ResponseCache.

Section Order.

Context {A : Type}.

(** A strongly sorted list stays so under any relation that agrees with
    the first on its elements. *)
Lemma StronglySorted_agree (R R' : relation A) (l : list A) :
  (forall x y, x ∈ l -> y ∈ l -> R x y -> R' x y) ->
  StronglySorted R l -> StronglySorted R' l.
Proof.
  induction l as [|a l IH]; intros Hagree Hs; [constructor|].
  apply StronglySorted_cons in Hs as [Hall Hs].
  apply StronglySorted_cons. split.
  - rewrite Forall_forall in *. intros y Hy.
    apply Hagree; [left|by right|by apply Hall].
  - apply IH; [|done]. intros x y Hx Hy. apply Hagree; by right.
Qed.

(** Filtering keeps a list strongly sorted. *)
Lemma StronglySorted_filter (R : relation A) (P : A -> Prop)
    `{forall x, Decision (P x)} (l : list A) :
  StronglySorted R l -> StronglySorted R (filter P l).
Proof.
  induction l as [|a l IH]; intros Hs; [constructor|].
  apply StronglySorted_cons in Hs as [Hall Hs].
  rewrite filter_cons. destruct (decide (P a)); [|by apply IH].
  apply StronglySorted_cons. split; [|by apply IH].
  rewrite Forall_forall in *. intros y Hy.
  apply list_elem_of_filter in Hy as [_ Hy]. by apply Hall.
Qed.

End Order.

Section Cache.

Context {K V : Type} `{EqDecision K}.

Implicit Types (k : K) (v : V) (es : list (K * V)) (c : t K V)
  (ops : list (op K V)).

Lemma find_None k es : find k es = None <-> k ∉ es.*1.
Proof.
  induction es as [|[k' v'] es IH]; cbn.
  - split; [intros _; apply not_elem_of_nil|done].
  - rewrite not_elem_of_cons. destruct (decide (k' = k)) as [->|Hne].
    + split; [done|]. by intros [? _].
    + rewrite IH. split; [by intros ?; split|by intros [_ ?]].
Qed.

Lemma find_snoc_fresh k v es : k ∉ es.*1 -> find k (es ++ [(k, v)]) = Some v.
Proof.
  induction es as [|[k' v'] es IH]; cbn; intros Hk.
  - by rewrite decide_True.
  - apply not_elem_of_cons in Hk as [Hne Hk].
    rewrite decide_False by done. by apply IH.
Qed.

Lemma find_snoc_other k k' v es :
  k' <> k -> find k (es ++ [(k', v)]) = find k es.
Proof.
  intros Hne. induction es as [|[k2 v2] es IH]; cbn.
  - by rewrite decide_False.
  - by destruct (decide (k2 = k)).
Qed.

Lemma remove_keys k es : (remove k es).*1 = filter (fun k' => k' <> k) es.*1.
Proof.
  unfold remove. induction es as [|[k' v'] es IH]; [done|].
  rewrite fmap_cons. destruct (decide (k' = k)) as [->|Hne].
  - rewrite !filter_cons_False by (cbn; tauto). exact IH.
  - rewrite !filter_cons_True by done. rewrite fmap_cons. by f_equal.
Qed.

Lemma remove_absent k es : k ∉ (remove k es).*1.
Proof.
  rewrite remove_keys. intros Hin.
  by apply list_elem_of_filter in Hin as [Hne _].
Qed.

Lemma remove_fresh k es : k ∉ es.*1 -> remove k es = es.
Proof.
  unfold remove. induction es as [|[k' v'] es IH]; [done|].
  rewrite fmap_cons. intros Hk. apply not_elem_of_cons in Hk as [Hne Hk].
  rewrite filter_cons_True by (cbn; by intros ->). by rewrite IH.
Qed.

Lemma touch_keys k v es :
  (touch k v es).*1 = filter (fun k' => k' <> k) es.*1 ++ [k].
Proof. unfold touch. by rewrite fmap_app, remove_keys. Qed.

(** With room for at least one entry, the entry just written is in the
    cache. *)
Lemma peek_put k v c : (0 < capacity c)%nat -> peek k (put k v c) = Some v.
Proof.
  intros Hcap. unfold peek, put, touch. cbn [entries capacity].
  pose proof (remove_absent k (entries c)) as Hk.
  destruct (Nat.ltb_spec (capacity c)
              (length (remove k (entries c) ++ [(k, v)]))) as [Hfull|_].
  - destruct (remove k (entries c)) as [|e es]; [cbn in Hfull; lia|].
    cbn [app drop]. rewrite drop_0. apply find_snoc_fresh.
    rewrite fmap_cons in Hk. by apply not_elem_of_cons in Hk as [_ ?].
  - by apply find_snoc_fresh.
Qed.

Lemma last_touch_snoc k ops (o : op K V) :
  last_touch k (ops ++ [o])
  = if touches k o then S (length ops) else last_touch k ops.
Proof.
  induction ops as [|o' ops IH]; cbn.
  - by destruct (touches k o).
  - rewrite IH. destruct (touches k o); [done|].
    by destruct (last_touch k ops).
Qed.

Lemma last_touch_le k ops : (last_touch k ops <= length ops)%nat.
Proof.
  induction ops as [|o ops IH]; cbn; [lia|].
  destruct (last_touch k ops); [destruct (touches k o)|]; lia.
Qed.

Lemma get_result k c : (get k c).1 = peek k c.
Proof. unfold get, peek. by destruct (find k (entries c)). Qed.

Lemma get_capacity k c : capacity (get k c).2 = capacity c.
Proof. unfold get. by destruct (find k (entries c)). Qed.

(** An access that is not to [k'] leaves the last access to [k'] where it
    was. *)
Lemma last_touch_snoc_other k' ops (o : op K V) :
  touches k' o = false -> last_touch k' (ops ++ [o]) = last_touch k' ops.
Proof. intros Ho. by rewrite last_touch_snoc, Ho. Qed.

(** Moving [k] to the end of entries ordered by last access keeps them
    ordered once [k] is accessed. *)
Lemma touch_ordered k ops (o : op K V) (ks : list K) :
  touches k o = true ->
  (forall k', k' <> k -> touches k' o = false) ->
  StronglySorted (fun k1 k2 => (last_touch k1 ops < last_touch k2 ops)%nat) ks ->
  StronglySorted
    (fun k1 k2 => (last_touch k1 (ops ++ [o]) < last_touch k2 (ops ++ [o]))%nat)
    (filter (fun k' => k' <> k) ks ++ [k]).
Proof.
  intros Hk Hother Hs. apply StronglySorted_app_2.
  - intros k1 k2 Hk1 ->%list_elem_of_singleton.
    apply list_elem_of_filter in Hk1 as [Hne _].
    rewrite (last_touch_snoc k), Hk, last_touch_snoc_other by auto.
    pose proof (last_touch_le k1 ops). lia.
  - eapply StronglySorted_agree; [|by apply StronglySorted_filter].
    intros k1 k2 [Hne1 _]%list_elem_of_filter [Hne2 _]%list_elem_of_filter.
    by rewrite !last_touch_snoc_other by auto.
  - repeat constructor.
Qed.

(** While a trace inserts no more distinct keys than the cache holds,
    nothing is evicted: the cache holds exactly the inserted keys, each
    once, in the order of their last access. *)
Lemma run_invariant (n : nat) ops :
  NoDup (put_keys ops) -> (length (put_keys ops) <= n)%nat ->
  let c := run ops (empty n) in
  capacity c = n /\
  NoDup (keys c) /\
  (forall k, k ∈ keys c <-> k ∈ put_keys ops) /\
  StronglySorted (fun k1 k2 => (last_touch k1 ops < last_touch k2 ops)%nat)
    (keys c).
Proof.
  induction ops as [|o ops IH] using rev_ind; intros Hnd Hlen c.
  { cbn. repeat split; try done; constructor. }
  unfold put_keys in Hnd, Hlen. rewrite omap_app in Hnd, Hlen.
  fold (put_keys ops) in Hnd, Hlen.
  subst c. unfold run. rewrite foldl_snoc. fold (run ops (empty n)).
  set (c := run ops (empty n)) in *.
  unfold put_keys at 1. rewrite omap_app. fold (put_keys ops).
  destruct o as [k v|k]; cbn [step omap option_bind mbind] in *.
  - (* a write of a new key *)
    apply NoDup_app in Hnd as (Hnd & Hfresh & _).
    rewrite length_app in Hlen. cbn in Hlen.
    destruct IH as (Hcap & Hndk & Hkeys & Hsorted); [done|lia|].
    assert (k ∉ put_keys ops) as Hk.
    { intros Hin. apply (Hfresh k Hin). by left. }
    assert (k ∉ keys c) as Hk' by (by rewrite Hkeys).
    assert (length (keys c) = length (put_keys ops)) as Hsize.
    { apply Permutation_length, NoDup_Permutation; auto. }
    unfold keys in Hsize. rewrite length_fmap in Hsize.
    assert (put k v c
            = {| capacity := n; entries := entries c ++ [(k, v)] |}) as ->.
    { unfold put, touch. rewrite (remove_fresh k) by done. rewrite Hcap.
      destruct (Nat.ltb_spec n (length (entries c ++ [(k, v)]))) as [Hfull|_];
        [|done].
      rewrite length_app in Hfull. cbn in Hfull. lia. }
    unfold keys in *. cbn [entries capacity]. rewrite fmap_app. cbn [fmap list_fmap fst].
    split; [done|]. split; [|split].
    + apply NoDup_app. split; [done|]. split; [|apply NoDup_singleton].
      by intros k' Hin ->%list_elem_of_singleton.
    + intros k'. rewrite !elem_of_app, Hkeys. tauto.
    + rewrite <- (remove_fresh k (entries c)) at 1 by done.
      rewrite remove_keys.
      apply touch_ordered; [by apply bool_decide_eq_true| |done].
      intros k' Hne. apply bool_decide_eq_false. congruence.
  - (* a read *)
    rewrite app_nil_r in *.
    destruct IH as (Hcap & Hndk & Hkeys & Hsorted); [done..|].
    split; [by rewrite get_capacity|].
    unfold get. destruct (find k (entries c)) as [v|] eqn:Hfind.
    + (* a hit moves the entry to the end *)
      assert (k ∈ keys c) as Hin.
      { destruct (decide (k ∈ keys c)) as [|Hout]; [done|].
        apply find_None in Hout. congruence. }
      unfold keys in *. cbn [snd entries]. rewrite touch_keys.
      split; [|split].
      * apply NoDup_app. split; [by apply NoDup_filter|].
        split; [|apply NoDup_singleton].
        intros k' [Hne _]%list_elem_of_filter ->%list_elem_of_singleton.
        done.
      * intros k'. rewrite elem_of_app, list_elem_of_filter,
          list_elem_of_singleton, <- Hkeys.
        destruct (decide (k' = k)) as [->|]; tauto.
      * apply touch_ordered; [by apply bool_decide_eq_true| |done].
        intros k' Hne. apply bool_decide_eq_false. congruence.
    + (* a miss changes nothing *)
      apply find_None in Hfind. cbn [snd].
      split; [done|]. split; [done|].
      eapply StronglySorted_agree; [|exact Hsorted].
      intros k1 k2 Hk1 Hk2.
      rewrite !last_touch_snoc_other; [done|..];
        apply bool_decide_eq_false; intros <-; contradiction.
Qed.

(** C7. In a cache with room for at least one entry, [get k] right after
    [put k v] returns [v]. And when a trace has inserted as many distinct
    keys as the cache holds, reading any of them in between, the insertion
    of one more key evicts exactly the least recently accessed one, reads
    counting as accesses: the new key is present, and an inserted key is
    absent if and only if no inserted key was last accessed before it. *)
Theorem lru_cache_correct :
  (forall k v c,
      (0 < capacity c)%nat -> (get k (put k v c)).1 = Some v) /\
  (forall (n : nat) ops k' v',
      (0 < n)%nat ->
      NoDup (put_keys ops) -> length (put_keys ops) = n ->
      k' ∉ put_keys ops ->
      let c := run (ops ++ [Put k' v']) (empty n) in
      peek k' c = Some v' /\
      forall k, k ∈ put_keys ops ->
                (peek k c = None <-> least_recently_accessed k ops)).
Proof.
  split.
  { intros k v c Hcap. rewrite get_result. by apply peek_put. }
  intros n ops k' v' Hn Hnd Hlen Hfresh c.
  destruct (run_invariant n ops Hnd) as (Hcap & Hndk & Hkeys & Hsorted); [lia|].
  subst c. unfold run. rewrite foldl_snoc. fold (run ops (empty n)).
  set (c := run ops (empty n)) in *. cbn [step].
  split; [apply peek_put; lia|].
  assert (k' ∉ keys c) as Hk' by (by rewrite Hkeys).
  assert (length (entries c) = n) as Hsize.
  { rewrite <- Hlen, <- (length_fmap fst).
    apply Permutation_length, NoDup_Permutation; auto. }
  unfold peek, put, touch, keys in *.
  rewrite (remove_fresh k') by done. cbn [entries]. rewrite Hcap.
  destruct (Nat.ltb_spec n (length (entries c ++ [(k', v')]))) as [_|Hroom];
    [|rewrite length_app in Hroom; cbn in Hroom; lia].
  destruct (entries c) as [|[k0 v0] es] eqn:Hes; [cbn in Hsize; lia|].
  cbn [app drop]. rewrite drop_0. rewrite fmap_cons in *. cbn [fst] in *.
  apply NoDup_cons in Hndk as [Hk0 Hndk].
  apply StronglySorted_cons in Hsorted as [Hfirst _].
  rewrite Forall_forall in Hfirst.
  intros k Hk. unfold least_recently_accessed.
  assert (k <> k') as Hne by (by intros ->).
  rewrite find_snoc_other, find_None by done.
  apply Hkeys in Hk. apply elem_of_cons in Hk as [->|Hk].
  - split; [|done]. intros _ k2 Hk2.
    apply Hkeys, elem_of_cons in Hk2 as [->|Hk2]; [lia|].
    specialize (Hfirst k2 Hk2). lia.
  - split; [done|]. intros Hleast. exfalso.
    specialize (Hfirst k Hk).
    assert (k0 ∈ put_keys ops) as Hk0' by (apply Hkeys; left).
    specialize (Hleast k0 Hk0'). lia.
Qed.

End Cache.

(** C7 on a cache of two entries: [1] and [2] are written, [1] is read,
    and the write of [3] evicts [2], the key accessed least recently. *)
Lemma lru_cache_correct_witness :
  (Nat.lt 0 (capacity small_cache) /\
   (get 1%nat (put 1%nat 10 small_cache)).1 = Some 10) /\
  (Nat.lt 0 2 /\ NoDup (put_keys fill_and_read) /\
   length (put_keys fill_and_read) = 2%nat /\
   (3%nat ∉ put_keys fill_and_read) /\
   let c := run (fill_and_read ++ [Put 3%nat 30]) (empty 2) in
   peek 3%nat c = Some 30 /\
   forall k, k ∈ put_keys fill_and_read ->
             (peek k c = None <-> least_recently_accessed k fill_and_read)).
Proof.
  assert (NoDup (put_keys fill_and_read)) as Hnd by compute_done.
  assert (3%nat ∉ put_keys fill_and_read) as Hfresh by compute_done.
  split.
  - split; [exact (Nat.lt_0_succ 1)|].
    apply (proj1 (lru_cache_correct (K := nat) (V := Z))).
    exact (Nat.lt_0_succ 1).
  - split; [exact (Nat.lt_0_succ 1)|]. split; [exact Hnd|].
    split; [reflexivity|]. split; [exact Hfresh|].
    exact (proj2 (lru_cache_correct (K := nat) (V := Z)) 2%nat fill_and_read
             3%nat 30 (Nat.lt_0_succ 1) Hnd eq_refl Hfresh).
Defined.

End ResponseCacheFacts.

(** ** The query router *)

Module QueryRouterFacts.

Import QueryRouter.

#[local] Open Scope string_scope.













End QueryRouterFacts.

(** ** Cache keys *)

Module CacheKeyFacts.

Import CacheKey.

Implicit Types (l : list Z) (n : nat) (x : Z).

#[local] Abbreviation is_byte := (fun b : Z => 0 <= b < 256).

Lemma le_bytes_length n x : length (le_bytes n x) = n.
Proof.
  revert x. induction n as [|n IH]; intros x; cbn; [done|]. by rewrite IH.
Qed.

Lemma le_bytes_range n x : Forall is_byte (le_bytes n x).
Proof.
  revert x. induction n as [|n IH]; intros x; cbn; constructor; [|done].
  apply Z.mod_pos_bound. lia.
Qed.

Lemma le_value_le_bytes n x : le_value (le_bytes n x) = x mod 256 ^ Z.of_nat n.
Proof.
  revert x. induction n as [|n IH]; intros x.
  - cbn. by rewrite Z.mod_1_r.
  - cbn [le_bytes le_value foldr]. fold (le_value (le_bytes n (x / 256))).
    rewrite IH, Nat2Z.inj_succ, Z.pow_succ_r by lia.
    rewrite Z.rem_mul_r by lia. done.
Qed.

Lemma le_bytes_le_value l :
  Forall is_byte l -> le_bytes (length l) (le_value l) = l.
Proof.
  induction 1 as [|b l Hb _ IH]; [done|].
  cbn [length le_bytes le_value foldr]. fold (le_value l).
  replace ((b + 256 * le_value l) mod 256) with b.
  - replace ((b + 256 * le_value l) / 256) with (le_value l); [by rewrite IH|].
    symmetry. rewrite (Z.mul_comm 256), Z.div_add by lia.
    rewrite Z.div_small by lia. lia.
  - symmetry. rewrite (Z.mul_comm 256), Z.mod_add by lia.
    by apply Z.mod_small.
Qed.

Lemma le_value_range l :
  Forall is_byte l -> 0 <= le_value l < 256 ^ Z.of_nat (length l).
Proof.
  induction 1 as [|b l Hb _ IH]; [done|].
  cbn [length le_value foldr]. fold (le_value l).
  rewrite Nat2Z.inj_succ, Z.pow_succ_r by lia. lia.
Qed.

(** A digest is 16 bytes. *)
Lemma md5_length l : length (md5 l) = 16%nat.
Proof.
  unfold md5. destruct (absorb _ _ _) as [[[a b] c] d].
  by rewrite !length_app, !le_bytes_length.
Qed.

Lemma md5_range l : Forall is_byte (md5 l).
Proof.
  unfold md5. destruct (absorb _ _ _) as [[[a b] c] d].
  rewrite !Forall_app. repeat split; apply le_bytes_range.
Qed.

Lemma md5_le_value l1 l2 :
  le_value (md5 l1) = le_value (md5 l2) -> md5 l1 = md5 l2.
Proof.
  intros Hv.
  rewrite <- (le_bytes_le_value (md5 l1)), <- (le_bytes_le_value (md5 l2))
    by apply md5_range.
  by rewrite !md5_length, Hv.
Qed.

Lemma bytes_text l : Forall is_byte l -> bytes (text l) = l.
Proof.
  induction 1 as [|b l Hb _ IH]; [done|]. cbn. rewrite IH. f_equal.
  rewrite N_ascii_embedding by lia. lia.
Qed.

Lemma text_length l : String.length (text l) = length l.
Proof. induction l as [|b l IH]; cbn; [done|]. by rewrite IH. Qed.

(** Blocks that are whole are absorbed before what follows them. *)
Lemma absorb_app (k n : nat) (st : registers) (a rest : list Z) :
  length a = (64 * k)%nat ->
  absorb (k + n) st (a ++ rest) = absorb n (absorb k st a) rest.
Proof.
  revert st a. induction k as [|k IH]; intros st a Hlen.
  - by destruct a.
  - cbn [Nat.add absorb].
    rewrite take_app_le, drop_app_le by lia.
    apply IH. rewrite length_drop. lia.
Qed.

(** Two messages of whole blocks that leave the registers alike have the
    same digest, and keep it whatever is appended to both. *)
Lemma md5_extension (k : nat) (a b tail : list Z) :
  length a = (64 * k)%nat -> length b = (64 * k)%nat ->
  absorb k initial a = absorb k initial b ->
  md5 (a ++ tail) = md5 (b ++ tail).
Proof.
  intros Ha Hb Hsame. unfold md5, pad.
  rewrite <- !(assoc_L (++)).
  rewrite !(length_app a), !(length_app b), Ha, Hb.
  rewrite !(Nat.mul_comm 64 k), !Nat.div_add_l by done.
  rewrite !absorb_app by lia. by rewrite Hsame.
Qed.

Lemma collision_extension (tail : list Z) :
  md5 (collision_a ++ tail) = md5 (collision_b ++ tail).
Proof. apply (md5_extension 2); [done|done|by vm_compute]. Qed.

(** A list of integers with a repetition has the same integer at two
    places. *)
Lemma repeated_element (l : list Z) :
  ~ NoDup l ->
  exists i j x, (i < j)%nat /\ l !! i = Some x /\ l !! j = Some x.
Proof.
  induction l as [|x l IH]; intros Hdup.
  - destruct Hdup. constructor.
  - destruct (decide (x ∈ l)) as [Hin|Hout].
    + apply list_elem_of_lookup in Hin as [j Hj].
      exists 0%nat, (S j), x. split; [lia|done].
    + destruct IH as (i & j & y & Hlt & Hi & Hj).
      { intros Hnd. apply Hdup. by constructor. }
      exists (S i), (S j), y. split; [lia|done].
Qed.

(** The pigeonhole principle: numbering into a bounded range of integers
    gives two of the first numbers the same image. *)
Lemma pigeonhole (bound : Z) (f : nat -> Z) :
  (forall i, 0 <= f i < bound) ->
  exists i j, (i < j <= Z.to_nat bound)%nat /\ f i = f j.
Proof.
  intros Hrange.
  set (l := f <$> seq 0 (S (Z.to_nat bound))).
  destruct (repeated_element l) as (i & j & x & Hlt & Hi & Hj).
  - intros Hnd.
    assert (l ⊆+ seqZ 0 bound) as Hsub.
    { apply NoDup_submseteq; [done|]. intros y Hy.
      apply list_elem_of_fmap in Hy as (n & -> & _).
      apply elem_of_seqZ. pose proof (Hrange n). lia. }
    apply submseteq_length in Hsub.
    unfold l in Hsub. rewrite length_fmap, length_seq, length_seqZ in Hsub. lia.
  - unfold l in Hi, Hj. rewrite list_lookup_fmap in Hi, Hj.
    destruct (seq 0 (S (Z.to_nat bound)) !! i) as [i'|] eqn:Hi'; [|done].
    destruct (seq 0 (S (Z.to_nat bound)) !! j) as [j'|] eqn:Hj'; [|done].
    apply lookup_seq in Hi' as [-> _]. apply lookup_seq in Hj' as [-> Hjb].
    cbn in Hi, Hj. exists i, j. split; [lia|congruence].
Qed.

(** The texts that number the messages are 17 characters long and differ
    from one number to the next, up to 2^128. *)
Lemma numbered_text_inj (i j : nat) :
  (i <= Z.to_nat digest_bound)%nat -> (j <= Z.to_nat digest_bound)%nat ->
  text (le_bytes 17 (Z.of_nat i)) = text (le_bytes 17 (Z.of_nat j)) -> i = j.
Proof.
  intros Hi Hj Htext. apply (f_equal bytes) in Htext.
  rewrite !bytes_text in Htext by apply le_bytes_range.
  apply (f_equal le_value) in Htext. rewrite !le_value_le_bytes in Htext.
  assert (0 <= digest_bound < 256 ^ Z.of_nat 17) as Hbound by (by vm_compute).
  rewrite !Z.mod_small in Htext by lia. lia.
Qed.

Section Key.

Variable serialize : Submission -> string.

#[local] Abbreviation cache_key := (cache_key serialize).

(** Whatever the serialization, two different messages of 17 characters
    have one key. *)
Lemma key_collision :
  exists t1 t2,
    String.length t1 = 17%nat /\ String.length t2 = 17%nat /\ t1 <> t2 /\
    cache_key (one_message t1) = cache_key (one_message t2).
Proof.
  destruct (pigeonhole digest_bound
              (fun n => le_value (cache_key (numbered_message n))))
    as (i & j & Hlt & Hkey).
  { intros n.
    pose proof (le_value_range _
                  (md5_range (bytes (serialize (numbered_message n)))))
      as Hr.
    rewrite md5_length in Hr. exact Hr. }
  exists (text (le_bytes 17 (Z.of_nat i))), (text (le_bytes 17 (Z.of_nat j))).
  rewrite !text_length, !le_bytes_length.
  split; [done|]. split; [done|]. split.
  - intros Heq%numbered_text_inj; lia.
  - by apply md5_le_value.
Qed.

(** C8, as a hash allows it. Identical submissions always have equal keys.
    A key is an MD5 digest, 16 bytes: [d41d8cd9...] for empty content and
    [90015098...] for the content "abc". So different submissions are not
    kept apart: two submissions written out as the two colliding messages
    of Wang et al., each followed by the same bytes, are different and have
    one key; and whatever the serialization, some two different messages
    of 17 characters have one key. *)
Theorem cache_key_stable_not_injective :
  (forall s1 s2, s1 = s2 -> cache_key s1 = cache_key s2) /\
  (forall s, length (cache_key s) = 16%nat /\ Forall is_byte (cache_key s)) /\
  (forall s, serialize s = ""%string ->
             hexdigest (cache_key s)
             = "d41d8cd98f00b204e9800998ecf8427e"%string) /\
  (forall s, serialize s = "abc"%string ->
             hexdigest (cache_key s)
             = "900150983cd24fb0d6963f7d28e17f72"%string) /\
  (forall s1 s2 tail,
      bytes (serialize s1) = collision_a ++ tail ->
      bytes (serialize s2) = collision_b ++ tail ->
      s1 <> s2 /\ cache_key s1 = cache_key s2) /\
  (exists t1 t2,
      String.length t1 = 17%nat /\ String.length t2 = 17%nat /\ t1 <> t2 /\
      cache_key (one_message t1) = cache_key (one_message t2)).
Proof.
  split; [by intros s1 s2 ->|].
  split; [intros s; split; [apply md5_length|apply md5_range]|].
  split; [intros s Hs; unfold CacheKey.cache_key; rewrite Hs; by vm_compute|].
  split; [intros s Hs; unfold CacheKey.cache_key; rewrite Hs; by vm_compute|].
  split; [|apply key_collision].
  intros s1 s2 tail H1 H2. split.
  - intros ->. rewrite H1 in H2. apply app_inv_tail in H2.
    vm_compute in H2. congruence.
  - unfold CacheKey.cache_key. rewrite H1, H2. apply collision_extension.
Qed.

End Key.

(** C8 as stated fails. Two requests of one message each, whose texts
    differ in one letter, have the same key when the content is hashed as
    it stands; and no serialization keeps every two different submissions
    apart. *)
Lemma cache_key_injective_counterexample :
  one_message text_a <> one_message text_b /\
  cache_key content_then_prompt (one_message text_a)
  = cache_key content_then_prompt (one_message text_b) /\
  forall serialize : Submission -> string, ~ collision_free serialize.
Proof.
  split; [by vm_compute|]. split; [by vm_compute|].
  intros serialize Hfree.
  destruct (key_collision serialize) as (t1 & t2 & _ & _ & Hne & Hkey).
  apply (Hfree (one_message t1) (one_message t2)); [|done].
  intros [= Heq]. done.
Qed.

(** C8 on the two colliding messages, sent with system instructions. *)
Lemma cache_key_stable_not_injective_witness :
  bytes (content_then_prompt (colliding collision_a))
  = collision_a ++ bytes "You are a helpful assistant." /\
  bytes (content_then_prompt (colliding collision_b))
  = collision_b ++ bytes "You are a helpful assistant." /\
  colliding collision_a <> colliding collision_b /\
  cache_key content_then_prompt (colliding collision_a)
  = cache_key content_then_prompt (colliding collision_b).
Proof.
  assert (bytes (content_then_prompt (colliding collision_a))
          = collision_a ++ bytes "You are a helpful assistant.") as Ha
    by (by vm_compute).
  assert (bytes (content_then_prompt (colliding collision_b))
          = collision_b ++ bytes "You are a helpful assistant.") as Hb
    by (by vm_compute).
  split; [exact Ha|]. split; [exact Hb|].
  exact (proj1 (proj2 (proj2 (proj2 (proj2
           (cache_key_stable_not_injective content_then_prompt)))))
           _ _ _ Ha Hb).
Defined.

(** The digests of the test suite of RFC 1321. *)
Lemma md5_test_suite :
  hexdigest (md5 (bytes "")) = "d41d8cd98f00b204e9800998ecf8427e"%string /\
  hexdigest (md5 (bytes "a")) = "0cc175b9c0f1b6a831c399e269772661"%string /\
  hexdigest (md5 (bytes "abc")) = "900150983cd24fb0d6963f7d28e17f72"%string /\
  hexdigest (md5 (bytes "message digest"))
  = "f96b697d7cb7938d525a2f31aaf161d0"%string /\
  hexdigest (md5 (bytes "abcdefghijklmnopqrstuvwxyz"))
  = "c3fcd3d76192e4007dfb496cca67e13b"%string /\
  hexdigest
    (md5 (bytes "ABCDEFGHIJKLMNOPQRSTUVWXYZabcdefghijklmnopqrstuvwxyz0123456789"))
  = "d174ab98d277d9f5a5611c2c9f419d9f"%string /\
  hexdigest
    (md5 (bytes "12345678901234567890123456789012345678901234567890123456789012345678901234567890"))
  = "57edf4a22be3c955ac49da2e2107b67a"%string.
Proof. by vm_compute. Qed.

End CacheKeyFacts.

(** ** Sampling of large datasets *)

Module SamplingFacts.

Import Sampling.

Section Sample.

Context {Row Gen : Type}.
Variable seeded : Z -> Gen.
Variable draw : Gen -> nat * Gen.
Variable pandasai : list Row -> string -> option string.

#[local] Abbreviation sample_rows := (sample_rows draw).
#[local] Abbreviation sample_dataframe_if_large :=
  (_sample_dataframe_if_large seeded draw).
#[local] Abbreviation query_with_pandasai :=
  (query_with_pandasai seeded draw pandasai).

(** A sample has as many rows as were asked for, or all of them when there
    are fewer. *)
Lemma sample_rows_length (n : nat) (g : Gen) (rows : list Row) :
  length (sample_rows n g rows) = (n `min` length rows)%nat.
Proof.
  revert g rows. induction n as [|n IH]; intros g rows; [done|].
  cbn [Sampling.sample_rows]. destruct (draw g) as [r g'].
  destruct rows as [|row rows]; [by destruct r|].
  set (i := (r mod length (row :: rows))%nat).
  assert (i < length (row :: rows))%nat as Hi.
  { apply Nat.mod_upper_bound. cbn. lia. }
  destruct (lookup_lt_is_Some_2 _ _ Hi) as [x Hx]. rewrite Hx.
  cbn [length]. rewrite IH, length_delete by eauto. cbn [length]. lia.
Qed.

(** The rows of a sample are rows of the dataset, none taken more often
    than it occurs there. *)
Lemma sample_rows_submseteq (n : nat) (g : Gen) (rows : list Row) :
  sample_rows n g rows ⊆+ rows.
Proof.
  revert g rows. induction n as [|n IH]; intros g rows;
    [apply submseteq_nil_l|].
  cbn [Sampling.sample_rows]. destruct (draw g) as [r g'].
  set (i := (r mod length rows)%nat).
  destruct (rows !! i) as [x|] eqn:Hx; [|apply submseteq_nil_l].
  trans (x :: delete i rows); [apply submseteq_skip, IH|].
  apply Permutation_submseteq. symmetry. by apply delete_Permutation.
Qed.

(** A dataset within the threshold is left as it is. *)
Lemma sample_dataframe_small (max_size : nat) (seed : Z) (df : list Row) :
  (length df <= max_size)%nat ->
  sample_dataframe_if_large max_size seed df = (df, false).
Proof.
  intros Hlen. unfold _sample_dataframe_if_large.
  by destruct (Nat.ltb_spec max_size (length df)); [lia|].
Qed.

(** Whatever rows are pointed at, at different places and in whatever
    order, some script of draws makes them the sample, in that order. *)
Lemma scripted_sample (rows : list Row) (target : list nat) :
  NoDup target ->
  (forall i, i ∈ target -> (i < length rows)%nat) ->
  exists script chosen,
    (rows !!.) <$> target = Some <$> chosen /\
    Sampling.sample_rows scripted (length target) script rows = chosen.
Proof.
  remember (length target) as n eqn:Hn. revert rows target Hn.
  induction n as [|n IH]; intros rows [|t ts] Hn Hnd Hbound; try done.
  { by exists [], []. }
  injection Hn as Hn. apply NoDup_cons in Hnd as [Ht Hnd].
  assert (t < length rows)%nat as Htlen by (apply Hbound; by left).
  destruct (lookup_lt_is_Some_2 rows t Htlen) as [row Hrow].
  set (shift := fun p : nat => if decide (p < t)%nat then p else pred p).
  assert (forall p, p ∈ ts -> p <> t /\ (p < length rows)%nat) as Hts.
  { intros p Hp. split; [by intros ->|]. apply Hbound. by right. }
  destruct (IH (delete t rows) (shift <$> ts))
    as (script & chosen & Hchosen & Hsample).
  - by rewrite length_fmap.
  - apply NoDup_fmap_2_strong; [|done]. intros p1 p2 Hp1 Hp2.
    destruct (Hts p1 Hp1), (Hts p2 Hp2). unfold shift.
    destruct (decide (p1 < t)%nat), (decide (p2 < t)%nat); lia.
  - intros p' Hp'. apply list_elem_of_fmap in Hp' as (p & -> & Hp).
    destruct (Hts p Hp). rewrite length_delete by eauto. unfold shift.
    destruct (decide (p < t)%nat); lia.
  - exists (t :: script), (row :: chosen). split.
    + rewrite !fmap_cons, Hrow. f_equal. rewrite <- Hchosen.
      rewrite <- list_fmap_compose. apply list_fmap_ext. intros _ p Hp%list_elem_of_lookup_2.
      destruct (Hts p Hp). cbn. unfold shift.
      destruct (decide (p < t)%nat).
      * by rewrite list_lookup_delete_lt.
      * rewrite list_lookup_delete_ge by lia. f_equal. lia.
    + cbn [Sampling.sample_rows scripted].
      rewrite Nat.mod_small by done. rewrite Hrow. by rewrite Hsample.
Qed.

(** C10. For a dataset of more than [max_size] rows the complex path works
    on a sample: [max_size] rows of the dataset, none taken twice. The
    analyzer is run on that sample at every call, whenever and for whatever
    query and conversation, and the metadata of the result says [sampled].
    The sample is decided by the generator as the seed starts it: a
    generator that gives this seed the same state gives the same rows,
    whatever it does with other seeds; and any rows of the dataset, taken
    at [max_size] different places in any order, are the sample under some
    generator that the seed starts. *)
Theorem sampling_large_dataset (max_size : nat) (seed : Z) (df : list Row) :
  (max_size < length df)%nat ->
  exists sample,
    sample_dataframe_if_large max_size seed df = (sample, true) /\
    length sample = max_size /\
    sample ⊆+ df /\
    (forall now q conversation,
        let r := query_with_pandasai max_size seed now df q conversation in
        result r = pandasai sample q /\
        sampled (metadata r) = true /\
        dataframe_size (metadata r) = length df) /\
    (forall seeded' : Z -> Gen,
        seeded' seed = seeded seed ->
        _sample_dataframe_if_large seeded' draw max_size seed df
        = (sample, true)) /\
    (forall target : list nat,
        NoDup target -> length target = max_size ->
        (forall i, i ∈ target -> (i < length df)%nat) ->
        exists (script : list nat) (chosen : list Row),
          (df !!.) <$> target = Some <$> chosen /\
          forall started : Z -> list nat,
            started seed = script ->
            _sample_dataframe_if_large started scripted max_size seed df
            = (chosen, true)).
Proof.
  intros Hlen. exists (sample_rows max_size (seeded seed) df).
  assert (forall (G : Type) (start : Z -> G) (d : G -> nat * G),
             _sample_dataframe_if_large start d max_size seed df
             = (Sampling.sample_rows d max_size (start seed) df, true))
    as Hsample.
  { intros G start d. unfold _sample_dataframe_if_large.
    by destruct (Nat.ltb_spec max_size (length df)); [|lia]. }
  split; [apply Hsample|].
  split; [rewrite sample_rows_length; lia|].
  split; [apply sample_rows_submseteq|].
  split.
  { intros now q conversation. unfold Sampling.query_with_pandasai.
    by rewrite Hsample. }
  split.
  { intros seeded' Hseed. by rewrite Hsample, Hseed. }
  intros target Hnd <- Hbound.
  destruct (scripted_sample df target Hnd Hbound)
    as (script & chosen & Hchosen & Hrows).
  exists script, chosen. split; [done|].
  intros started <-. by rewrite Hsample, Hrows.
Qed.

End Sample.

(** C10 on seven rows with a threshold of three and the seed 42. *)
Lemma sampling_large_dataset_witness :
  Nat.lt 3 (length [10; 20; 30; 40; 50; 60; 70]) /\
  exists sample,
    _sample_dataframe_if_large lcg_seeded lcg_draw 3 42
      [10; 20; 30; 40; 50; 60; 70] = (sample, true) /\
    length sample = 3%nat /\
    sample ⊆+ [10; 20; 30; 40; 50; 60; 70] /\
    (forall now q conversation,
        let r := query_with_pandasai lcg_seeded lcg_draw echo 3 42 now
                   [10; 20; 30; 40; 50; 60; 70] q conversation in
        result r = echo sample q /\
        sampled (metadata r) = true /\
        dataframe_size (metadata r) = length [10; 20; 30; 40; 50; 60; 70]) /\
    (forall seeded' : Z -> Z,
        seeded' 42 = lcg_seeded 42 ->
        _sample_dataframe_if_large seeded' lcg_draw 3 42
          [10; 20; 30; 40; 50; 60; 70]
        = (sample, true)) /\
    (forall target : list nat,
        NoDup target -> length target = 3%nat ->
        (forall i, i ∈ target ->
                   (i < length [10; 20; 30; 40; 50; 60; 70])%nat) ->
        exists (script : list nat) (chosen : list Z),
          ([10; 20; 30; 40; 50; 60; 70] !!.) <$> target = Some <$> chosen /\
          forall started : Z -> list nat,
            started 42 = script ->
            _sample_dataframe_if_large started scripted 3 42
              [10; 20; 30; 40; 50; 60; 70]
            = (chosen, true)).
Proof.
  assert (Nat.lt 3 (length [10; 20; 30; 40; 50; 60; 70])) as Hlen
    by (cbn; repeat constructor).
  split; [exact Hlen|].
  exact (sampling_large_dataset lcg_seeded lcg_draw echo 3 42
           [10; 20; 30; 40; 50; 60; 70] Hlen).
Defined.

(** The rows the seed 42 picks there, and the rows the seed 43 picks. *)
Lemma sample_of_seed :
  _sample_dataframe_if_large lcg_seeded lcg_draw 3 42
    [10; 20; 30; 40; 50; 60; 70]
  = ([70; 60; 50], true) /\
  _sample_dataframe_if_large lcg_seeded lcg_draw 3 43
    [10; 20; 30; 40; 50; 60; 70]
  = ([20; 60; 70], true).
Proof. by vm_compute. Qed.

End SamplingFacts.

(** ** More on the sliding window *)

Module SlidingWindowFacts.

Import PyFacts ContextWindow ContextWindowFacts.

Section Window.

Context {Message : Type}.
Variable estimate_tokens : list Message -> Z.
Variable TOKEN_LIMIT : Z.

#[local] Abbreviation loop := (remove_from_middle estimate_tokens TOKEN_LIMIT).
#[local] Abbreviation apply_sliding_window :=
  (apply_sliding_window estimate_tokens TOKEN_LIMIT).

(** An invariant of the loop: a property of [result] and [tokens] that
    every turn keeps holds of what the loop returns, and the loop does
    return under a non-negative [preserve]. *)
Lemma remove_from_middle_invariant (P : list Message -> Z -> Prop)
    (fuel : nat) (preserve : Z) (result : list Message) (tokens : Z) :
  0 <= preserve -> (length result <= fuel)%nat ->
  P result tokens ->
  (forall r t x,
      P r t -> TOKEN_LIMIT < t -> preserve + 2 < len r ->
      r !! Z.to_nat (middle_index preserve r) = Some x ->
      P (delete (Z.to_nat (middle_index preserve r)) r)
        (t - estimate_tokens [x])) ->
  exists result' tokens',
    loop fuel preserve result tokens = Returns (result', tokens') /\
    P result' tokens' /\
    (tokens' <= TOKEN_LIMIT \/ len result' <= preserve + 2).
Proof.
  intros Hp Hfuel HP Hstep. revert result tokens Hfuel HP.
  induction fuel as [|fuel IH]; intros result tokens Hfuel HP; simpl.
  - assert (len result = 0) as Hlen by (unfold len; lia).
    destruct (Z.ltb_spec (preserve + 2) (len result)); [lia|].
    rewrite andb_false_r. exists result, tokens. split; [done|].
    split; [done|]. right. lia.
  - destruct (Z.ltb_spec TOKEN_LIMIT tokens) as [Htok|Htok];
      destruct (Z.ltb_spec (preserve + 2) (len result)) as [Hlen|Hlen];
      cbn [andb];
      try (exists result, tokens; split; [done|]; split; [done|]; lia).
    pose proof (middle_index_bounds estimate_tokens preserve result Hp Hlen)
      as Hmid.
    destruct (pop_in_range result (middle_index preserve result))
      as (x & Hx & ->); [lia|].
    apply IH; [|by apply Hstep].
    rewrite length_delete by eauto. lia.
Qed.

(** What [apply_sliding_window] returns is what the run returns. *)
Lemma apply_of_run (h : list Message) (max_msgs preserve : Z)
    (result : list Message) (tokens : option Z) :
  sliding_window_run estimate_tokens TOKEN_LIMIT h max_msgs preserve
    = Returns (result, tokens) ->
  apply_sliding_window h max_msgs preserve = Returns result.
Proof. unfold ContextWindow.apply_sliding_window. by intros ->. Qed.

(** Once the history is too long, the run is the loop on the initial
    window. *)
Lemma run_of_loop (h : list Message) (max_msgs preserve : Z)
    (result : list Message) (tokens : Z) :
  max_msgs < len h ->
  loop (length (initial_window h max_msgs preserve)) preserve
    (initial_window h max_msgs preserve)
    (estimate_tokens (initial_window h max_msgs preserve))
    = Returns (result, tokens) ->
  apply_sliding_window h max_msgs preserve = Returns result.
Proof.
  intros Hmax Hloop. apply (apply_of_run _ _ _ _ (Some tokens)).
  unfold sliding_window_run.
  destruct (Z.leb_spec (len h) max_msgs); [lia|]. by rewrite Hloop.
Qed.

(** Popping before the last place leaves the last element where it is. *)
Lemma last_delete (l : list Message) (j : nat) :
  (S j < length l)%nat -> last (delete j l) = last l.
Proof.
  intros Hj. rewrite !last_lookup.
  rewrite length_delete by (apply lookup_lt_is_Some; lia).
  rewrite list_lookup_delete_ge by lia. f_equal. lia.
Qed.

(** Under a well-formed budget the window never has more messages than
    [max_msgs], nor than the history; and the token limit never cuts it
    below [preserve + 2] messages (or below that bound, when it is less). *)
Theorem window_size_bounds (h : list Message) (max_msgs preserve : Z) :
  0 <= preserve < max_msgs ->
  exists result,
    apply_sliding_window h max_msgs preserve = Returns result /\
    Z.min (Z.min (len h) max_msgs) (preserve + 2) <= len result
      <= Z.min (len h) max_msgs.
Proof.
  intros Hp.
  destruct (Z.le_gt_cases (len h) max_msgs) as [Hlen|Hlen].
  - exists h. split; [|lia].
    apply (apply_of_run _ _ _ _ None).
    by apply run_within_limit.
  - destruct (run_well_formed estimate_tokens TOKEN_LIMIT h max_msgs preserve)
      as (tail & tokens & Hrun & _ & Hb & _); [done|lia|].
    eexists. split; [exact (apply_of_run _ _ _ _ _ Hrun)|]. lia.
Qed.

(** Under a well-formed budget the most recent message is always kept: the
    window ends with the last message of the history. *)
Theorem most_recent_message_kept (h : list Message) (max_msgs preserve : Z) :
  0 <= preserve < max_msgs ->
  exists result,
    apply_sliding_window h max_msgs preserve = Returns result /\
    last result = last h.
Proof.
  intros Hp.
  destruct (Z.le_gt_cases (len h) max_msgs) as [Hlen|Hlen].
  - exists h. split; [|done].
    apply (apply_of_run _ _ _ _ None). by apply run_within_limit.
  - set (w0 := initial_window h max_msgs preserve).
    destruct (remove_from_middle_invariant
                (fun r _ => last r = last h) (length w0) preserve w0
                (estimate_tokens w0)) as (result & tokens & Hloop & Hlast & _).
    + lia.
    + done.
    + unfold w0.
      destruct (initial_window_well_formed h max_msgs preserve) as [-> _];
        [done|lia|].
      set (k := Z.to_nat (len h - (max_msgs - preserve))).
      rewrite <- (take_drop k h) at 3. rewrite !last_app.
      destruct (last (drop k h)) eqn:Hrecent; [done|].
      apply last_None in Hrecent.
      apply (f_equal length) in Hrecent. rewrite length_drop in Hrecent.
      unfold len in *. cbn in Hrecent. lia.
    + intros r t x Hr _ Hlong _. rewrite <- Hr. apply last_delete.
      pose proof (middle_index_bounds estimate_tokens preserve r
                    (proj1 Hp) Hlong).
      unfold len in *. lia.
    + exists result. split; [|done]. by apply (run_of_loop _ _ _ _ tokens).
Qed.

(** Under a well-formed budget ([0 <= preserve < max_msgs]), a history of
    more than [max_msgs] messages whose cut is within the token limit comes
    back as its first [preserve] messages followed by its last
    [max_msgs - preserve] messages: the loop removes nothing. *)
Theorem window_within_token_limit (h : list Message) (max_msgs preserve : Z) :
  0 <= preserve < max_msgs -> max_msgs < len h ->
  let opening := take (Z.to_nat preserve) h in
  let recent := drop (length h - Z.to_nat (max_msgs - preserve)) h in
  estimate_tokens (opening ++ recent) <= TOKEN_LIMIT ->
  apply_sliding_window h max_msgs preserve = Returns (opening ++ recent) /\
  len recent = max_msgs - preserve.
Proof.
  intros Hp Hmax opening recent Hfit.
  assert (length h - Z.to_nat (max_msgs - preserve)
          = Z.to_nat (len h - (max_msgs - preserve)))%nat as Hk
    by (unfold len in *; lia).
  unfold recent in *. rewrite Hk in *.
  destruct (run_well_formed estimate_tokens TOKEN_LIMIT h max_msgs preserve)
    as (tail & tokens & Hrun & _ & _ & _ & _ & Hsame); [done..|].
  destruct Hsame as [-> _]; [by left|].
  split; [exact (apply_of_run _ _ _ _ _ Hrun)|].
  unfold len in *. rewrite length_drop. lia.
Qed.

(** With an estimator that adds up over the messages, [tokens] is the
    estimate of [result] all along the loop. So for [0 <= preserve] a
    history of more than [max_msgs] messages comes back either within the
    token limit or cut down to at most [preserve + 2] messages. *)
Theorem token_limit_or_floor (h : list Message) (max_msgs preserve : Z) :
  (forall l1 l2,
      estimate_tokens (l1 ++ l2) = estimate_tokens l1 + estimate_tokens l2) ->
  0 <= preserve -> max_msgs < len h ->
  exists result,
    apply_sliding_window h max_msgs preserve = Returns result /\
    (estimate_tokens result <= TOKEN_LIMIT \/ len result <= preserve + 2).
Proof.
  intros Hadd Hp Hmax.
  set (w0 := initial_window h max_msgs preserve).
  destruct (remove_from_middle_invariant
              (fun r t => t = estimate_tokens r) (length w0) preserve w0
              (estimate_tokens w0)) as (result & tokens & Hloop & -> & Hstop).
  - done.
  - done.
  - done.
  - intros r t x -> _ _ Hx.
    rewrite <- (take_drop_middle r _ x Hx) at 1.
    rewrite delete_take_drop. rewrite !Hadd.
    change (x :: drop _ r) with ([x] ++ drop (S (Z.to_nat (middle_index preserve r))) r).
    rewrite Hadd. lia.
  - exists result. split; [|done]. by apply (run_of_loop _ _ _ _ _ Hmax Hloop).
Qed.


End Window.

(** The flat estimator adds up. *)
Lemma flat_estimate_additive (l1 l2 : list Z) :
  flat_estimate (l1 ++ l2) = flat_estimate l1 + flat_estimate l2.
Proof. unfold flat_estimate. rewrite len_app. lia. Qed.

(** The bounds on the guide's worked example, cut by a low token limit. *)
Lemma window_size_bounds_witness :
  0 <= 2 < 8 /\
  exists result,
    ContextWindow.apply_sliding_window flat_estimate 50 (numbered 12) 8 2
      = Returns result /\
    Z.min (Z.min (len (numbered 12)) 8) (2 + 2) <= len result
      <= Z.min (len (numbered 12)) 8.
Proof.
  split; [lia|]. apply (window_size_bounds flat_estimate 50 (numbered 12) 8 2).
  lia.
Defined.

Lemma most_recent_message_kept_witness :
  0 <= 2 < 8 /\
  exists result,
    ContextWindow.apply_sliding_window flat_estimate 0 (numbered 12) 8 2
      = Returns result /\
    last result = last (numbered 12).
Proof.
  split; [lia|].
  apply (most_recent_message_kept flat_estimate 0 (numbered 12) 8 2). lia.
Defined.

(** The guide's worked example: [1 .. 12] with 8 kept and 2 preserved is
    [1; 2; 7 .. 12]. *)
Lemma window_within_token_limit_witness :
  0 <= 2 < 8 /\ 8 < len (numbered 12) /\
  flat_estimate (take 2 (numbered 12) ++ drop 6 (numbered 12)) <= 100000 /\
  ContextWindow.apply_sliding_window flat_estimate 100000 (numbered 12) 8 2
    = Returns (take 2 (numbered 12) ++ drop 6 (numbered 12)) /\
  len (drop 6 (numbered 12)) = 8 - 2.
Proof.
  split; [lia|]. split; [by vm_compute|]. split; [by vm_compute|].
  apply (window_within_token_limit flat_estimate 100000 (numbered 12) 8 2);
    [lia|by vm_compute|by vm_compute].
Defined.

Lemma token_limit_or_floor_witness :
  (forall l1 l2 : list Z,
      flat_estimate (l1 ++ l2) = flat_estimate l1 + flat_estimate l2) /\
  0 <= 2 /\ 8 < len (numbered 12) /\
  exists result,
    ContextWindow.apply_sliding_window flat_estimate 50 (numbered 12) 8 2
      = Returns result /\
    (flat_estimate result <= 50 \/ len result <= 2 + 2).
Proof.
  split; [exact flat_estimate_additive|]. split; [lia|].
  split; [by vm_compute|].
  apply (token_limit_or_floor flat_estimate 50 (numbered 12) 8 2
           flat_estimate_additive); [lia|by vm_compute].
Defined.


End SlidingWindowFacts.

(** ** JavaScript strings *)

Module JSFacts.

Import JS.

(** What [trimStart] leaves does not begin with white space. *)
Lemma trimStart_head (s t : str) (u : N) :
  trimStart s = u :: t -> is_white_space u = false.
Proof.
  induction s as [|a s IH]; cbn; [done|].
  destruct (is_white_space a) eqn:Ha; [done|]. by intros [= <- _].
Qed.

Lemma trimStart_nil (s : str) :
  trimStart s = [] <-> forallb is_white_space s = true.
Proof.
  induction s as [|a s IH]; cbn; [done|].
  destruct (is_white_space a); cbn; [done|]. by split.
Qed.

Lemma forallb_reverse (p : N -> bool) (s : str) :
  forallb p (reverse s) = forallb p s.
Proof.
  induction s as [|a s IH]; [done|].
  rewrite reverse_cons, forallb_app, IH. cbn. rewrite andb_true_r.
  apply andb_comm.
Qed.

(** [trim] leaves nothing exactly of the strings made of white space. *)
Lemma trim_nil (s : str) : trim s = [] <-> forallb is_white_space s = true.
Proof.
  unfold trim, trimEnd. rewrite <- trimStart_nil.
  split.
  - intros Hrev. apply (f_equal reverse) in Hrev.
    rewrite reverse_involutive, reverse_nil in Hrev.
    apply trimStart_nil in Hrev. rewrite forallb_reverse in Hrev.
    destruct (trimStart s) as [|u t] eqn:Hs; [done|].
    apply trimStart_head in Hs. cbn in Hrev. by rewrite Hs in Hrev.
  - by intros ->.
Qed.

Lemma split_cons (sep : N) (s : str) :
  exists piece pieces, split sep s = piece :: pieces.
Proof.
  induction s as [|u s (piece & pieces & IH)]; cbn; [by eexists _, _|].
  destruct (u =? sep)%N; [by eexists _, _|]. rewrite IH. by eexists _, _.
Qed.

Lemma join_cons (sep : N) (p q : str) (rest : list str) :
  join sep (p :: q :: rest) = p ++ sep :: join sep (q :: rest).
Proof. done. Qed.

(** Joining the pieces of a string gives the string back. *)
Lemma join_split (sep : N) (s : str) : join sep (split sep s) = s.
Proof.
  induction s as [|u s IH]; [done|]. cbn [split].
  destruct (split_cons sep s) as (piece & pieces & Hs). rewrite Hs in *.
  destruct (N.eqb_spec u sep) as [->|_].
  - by rewrite join_cons, IH.
  - destruct pieces as [|q rest].
    + cbn in *. by rewrite IH.
    + rewrite join_cons in *. by rewrite <- IH.
Qed.

(** The first pieces of a list, joined, begin the whole list joined. *)
Lemma join_take_prefix (sep : N) (n : nat) (pieces : list str) :
  join sep (take n pieces) `prefix_of` join sep pieces.
Proof.
  revert n. induction pieces as [|piece pieces IH]; intros [|n];
    cbn [take]; try apply prefix_nil.
  destruct pieces as [|piece' pieces].
  - by rewrite take_nil.
  - destruct n as [|n]; [cbn; by apply prefix_app_r|].
    specialize (IH (S n)). cbn [take] in *.
    change (join sep (piece :: piece' :: take n pieces))
      with (piece ++ sep :: join sep (piece' :: take n pieces)).
    change (join sep (piece :: piece' :: pieces))
      with (piece ++ sep :: join sep (piece' :: pieces)).
    by apply prefix_app, prefix_cons.
Qed.

End JSFacts.

(** ** CSV previews *)

Module CsvPreviewFacts.

Import JS JSFacts CsvPreview.

(** A CSV text of at most [lines] lines is previewed whole. A longer one is
    previewed by its first [lines] lines, which begin the text, followed
    by a line feed and three dots. *)
Theorem preview_lines (lines : nat) (csv : str) :
  ((length (split LF csv) <= lines)%nat -> preview lines csv = csv) /\
  ((lines < length (split LF csv))%nat ->
   exists first,
     preview lines csv = first ++ LF :: lit "..." /\
     first = join LF (take lines (split LF csv)) /\
     first `prefix_of` csv).
Proof.
  unfold preview. split; intros Hlen.
  - destruct (Nat.ltb_spec lines (length (split LF csv))); [lia|].
    by rewrite take_ge, join_split, app_nil_r.
  - destruct (Nat.ltb_spec lines (length (split LF csv))); [|lia].
    eexists. split; [done|]. split; [done|].
    rewrite <- (join_split LF csv) at 2. apply join_take_prefix.
Qed.

Lemma preview_lines_witness :
  (2 < length (split LF Session.csv))%nat /\
  exists first,
    preview 2 Session.csv = first ++ LF :: lit "..." /\
    first = join LF (take 2 (split LF Session.csv)) /\
    first `prefix_of` Session.csv.
Proof.
  split; [vm_compute; lia|].
  apply (proj2 (preview_lines 2 Session.csv)). vm_compute; lia.
Defined.

End CsvPreviewFacts.

(** ** The chat window *)

Module ChatWindowFacts.

Import JS JSFacts ChatWindow.

Implicit Types (l prev tail : list Message) (sid mid chunk : str)
  (st : State) (b : Browser) (api : ApiService).

(** [sid] is not the identifier of any message of the list. *)
#[local] Abbreviation fresh sid l := (Forall (fun m => id m <> sid) l).

Lemma on_chunk_fresh sid chunk prev :
  fresh sid prev -> on_chunk sid chunk prev = prev.
Proof.
  unfold on_chunk. induction 1 as [|m prev Hm _ IH]; [done|].
  rewrite fmap_cons, IH. by rewrite decide_False.
Qed.

Lemma on_complete_fresh sid mid prev :
  fresh sid prev -> on_complete sid mid prev = prev.
Proof.
  unfold on_complete. induction 1 as [|m prev Hm _ IH]; [done|].
  rewrite fmap_cons, IH. by rewrite decide_False.
Qed.

Lemma remove_message_fresh sid prev :
  fresh sid prev -> remove_message sid prev = prev.
Proof.
  unfold remove_message. induction 1 as [|m prev Hm _ IH]; [done|].
  by rewrite filter_cons_True, IH.
Qed.

(** A callback of the stream leaves alone the messages before the
    placeholder. *)
Lemma run_callback_app sid (c : callback) prev tail :
  fresh sid prev ->
  run_callback sid c (prev ++ tail) = prev ++ run_callback sid c tail.
Proof.
  intros Hfresh. destruct c as [chunk|mid|e]; cbn.
  - unfold on_chunk. rewrite fmap_app. f_equal. by apply on_chunk_fresh.
  - unfold on_complete. rewrite fmap_app. f_equal.
    by apply on_complete_fresh.
  - unfold remove_message. rewrite filter_app. f_equal.
    by apply remove_message_fresh.
Qed.

Lemma run_callbacks_app sid (cs : list callback) prev tail :
  fresh sid prev ->
  foldl (fun l c => run_callback sid c l) (prev ++ tail) cs
  = prev ++ foldl (fun l c => run_callback sid c l) tail cs.
Proof.
  intros Hfresh. revert tail.
  induction cs as [|c cs IH]; intros tail; [done|].
  cbn [foldl]. by rewrite run_callback_app, IH.
Qed.

(** The callbacks of a stream only change the message list. *)
Lemma run_callbacks_state sid (cs : list callback) st :
  foldl (fun s c => set_messages (run_callback sid c) s) st cs
  = set_messages (fun l => foldl (fun l c => run_callback sid c l) l cs) st.
Proof.
  revert st. induction cs as [|c cs IH]; intros st; [by destruct st|].
  cbn [foldl]. by rewrite IH.
Qed.

(** The chunks of a stream, one after the other, extend the placeholder's
    content by their concatenation. *)
Lemma run_chunks sid (chunks : list str) (m : Message) :
  id m = sid ->
  foldl (fun l c => run_callback sid c l) [m] (OnChunk <$> chunks)
  = [{| id := id m; role := role m;
        content := content m ++ concat chunks;
        timestamp := timestamp m; image := image m;
        csvData := csvData m; visualization := visualization m;
        isStreaming := isStreaming m |}].
Proof.
  intros Hid. revert m Hid.
  induction chunks as [|chunk chunks IH]; intros m Hid.
  - cbn. rewrite app_nil_r. by destruct m.
  - cbn [fmap list_fmap foldl run_callback on_chunk].
    rewrite decide_True by done. rewrite IH by done. cbn.
    by rewrite <- (assoc_L (++)).
Qed.

(** Chunks accumulate: two chunks delivered in turn change the list as
    their concatenation delivered at once does; and a chunk changes
    neither the number of messages nor their identifiers. *)
Theorem chunks_accumulate sid (c1 c2 : str) prev :
  on_chunk sid c2 (on_chunk sid c1 prev) = on_chunk sid (c1 ++ c2) prev /\
  id <$> on_chunk sid c1 prev = id <$> prev.
Proof.
  unfold on_chunk. split.
  - rewrite <- list_fmap_compose. apply list_fmap_ext. intros _ m _. cbn.
    destruct (decide (id m = sid)) as [Hid|Hid]; cbn.
    + rewrite decide_True by done. by rewrite <- (assoc_L (++)).
    + by rewrite decide_False.
  - rewrite <- list_fmap_compose. apply list_fmap_ext. intros _ m _. cbn.
    by destruct (decide (id m = sid)).
Qed.

Lemma connected st (session : str) :
  sessionId st = Some session -> session <> [] -> isConnected st = true ->
  not_connected st = false /\ default [] (sessionId st) = session.
Proof.
  unfold not_connected. intros -> Hne ->. by destruct session.
Qed.

(** A text message, sent while connected: the placeholder is appended, the
    callbacks of the stream work on it, and a rejected promise adds the
    fallback. *)
Lemma stream_path api b (content session : str) st
    (cs : list callback) (outcome : settled ()) :
  sessionId st = Some session -> session <> [] -> isConnected st = true ->
  fresh (streamingMessageId b) (messages st) ->
  sendMessageStream api session content = (cs, outcome) ->
  sendMessageInternal api b content None None st
  = rested st
      (messages st
       ++ foldl (fun l c => run_callback (streamingMessageId b) c l)
            [placeholder b] cs
       ++ match outcome with
          | Resolved _ => []
          | Rejected => [fallback_message b]
          end).
Proof.
  intros Hsession Hne Hconn Hfresh Hstream.
  destruct (connected st session Hsession Hne Hconn) as [Hnc Hdef].
  unfold sendMessageInternal. rewrite Hnc, Hdef, Hstream.
  rewrite run_callbacks_state. unfold placeholder, rested.
  destruct outcome;
    unfold append_message, set_messages, set_isLoading;
    cbn [messages isLoading sessionId isConnected suggestedQuestions];
    rewrite run_callbacks_app by done.
  - by rewrite app_nil_r.
  - by rewrite <- (assoc_L (++)).
Qed.

(** A stream that delivers chunks and completes leaves, after the earlier
    messages, one reply of the assistant: the chunks in order, under the
    identifier the backend gave, no longer streaming. *)
Theorem stream_completes api b (content session : str) st
    (chunks : list str) (messageId : str) :
  sessionId st = Some session -> session <> [] -> isConnected st = true ->
  fresh (streamingMessageId b) (messages st) ->
  sendMessageStream api session content
    = ((OnChunk <$> chunks) ++ [OnComplete messageId], Resolved ()) ->
  sendMessageInternal api b content None None st
  = rested st
      (messages st
       ++ [assistant_message messageId (concat chunks) (replied_at b)
             None (Some false)]).
Proof.
  intros Hsession Hne Hconn Hfresh Hstream.
  rewrite (stream_path api b content session st _ _
             Hsession Hne Hconn Hfresh Hstream).
  rewrite foldl_app, run_chunks by done. cbn.
  by rewrite decide_True.
Qed.


(** A stream whose promise is rejected without an error callback leaves
    the placeholder in the list, still marked as streaming, with the chunks
    received so far, and the fallback reply after it. *)
Theorem stream_rejected_keeps_placeholder api b (content session : str) st
    (chunks : list str) :
  sessionId st = Some session -> session <> [] -> isConnected st = true ->
  fresh (streamingMessageId b) (messages st) ->
  sendMessageStream api session content = (OnChunk <$> chunks, Rejected) ->
  sendMessageInternal api b content None None st
  = rested st
      (messages st
       ++ [assistant_message (streamingMessageId b) (concat chunks)
             (replied_at b) None (Some true);
           fallback_message b]).
Proof.
  intros Hsession Hne Hconn Hfresh Hstream.
  rewrite (stream_path api b content session st _ _
             Hsession Hne Hconn Hfresh Hstream).
  by rewrite run_chunks.
Qed.

(** A message with an attachment, or sent without a connection, gets
    exactly one reply whatever the backend does: one message of the
    assistant is appended, the fallback when there is no connection. *)
Theorem one_reply_outside_stream api b (content : str)
    (imageFile csvFile : option File) st :
  not_connected st = true \/ is_Some imageFile \/ is_Some csvFile ->
  exists reply,
    messages (sendMessageInternal api b content imageFile csvFile st)
      = messages st ++ [reply] /\
    role reply = assistant /\ isStreaming reply = None /\
    isLoading (sendMessageInternal api b content imageFile csvFile st)
      = false /\
    (not_connected st = true -> reply = fallback_message b).
Proof.
  intros Hpath. unfold sendMessageInternal.
  destruct (not_connected st) eqn:Hnc.
  { eexists. split; [reflexivity|]. by repeat split. }
  destruct imageFile as [file|].
  { destruct (sendImageMessage api _ content file) as [r|];
      eexists; (split; [reflexivity|]); by repeat split. }
  destruct csvFile as [file|].
  { destruct (sendCsvMessage api _ content file) as [r|].
    - destruct (suggested_questions r) as [[|q qs]|];
        eexists; (split; [reflexivity|]); by repeat split.
    - eexists; (split; [reflexivity|]); by repeat split. }
  destruct Hpath as [?|[[? ?]|[? ?]]]; done.
Qed.

(** With both an image and a CSV file attached, the user message records
    both, but only the image is sent: the reply is the backend's answer to
    the image message (or the fallback), and the CSV file reaches no
    call. *)
Theorem image_sent_csv_dropped api b (content session : str)
    (imageFile csvFile : File) st :
  trim content <> [] ->
  sessionId st = Some session -> session <> [] -> isConnected st = true ->
  messages (handleSendMessage api b content (Some imageFile) (Some csvFile) st)
  = messages st
    ++ [user_message b content (Some imageFile) (Some csvFile);
        match sendImageMessage api session content imageFile with
        | Resolved r =>
            assistant_message (message_id r) (response r) (replied_at b)
              None None
        | Rejected => fallback_message b
        end].
Proof.
  intros Hblank Hsession Hne Hconn.
  unfold handleSendMessage. destruct (trim content); [done|].
  set (st' := set_messages _ st).
  destruct (connected st' session) as [Hnc Hdef]; [done..|].
  unfold sendMessageInternal. rewrite Hnc, Hdef.
  destruct (sendImageMessage api session content imageFile); cbn;
    unfold append_message; by rewrite <- (assoc_L (++)).
Qed.

(** [sendMessageInternal] only adds to the messages, when the identifier of
    the placeholder is new. *)
Lemma sendMessageInternal_prefix api b (content : str)
    (imageFile csvFile : option File) st :
  fresh (streamingMessageId b) (messages st) ->
  messages st
    `prefix_of` messages (sendMessageInternal api b content imageFile csvFile st).
Proof.
  intros Hfresh. unfold sendMessageInternal.
  destruct (not_connected st); [by eexists|].
  destruct imageFile as [file|].
  { destruct (sendImageMessage api _ content file); by eexists. }
  destruct csvFile as [file|].
  { destruct (sendCsvMessage api _ content file) as [r|]; [|by eexists].
    destruct (suggested_questions r) as [[|q qs]|]; by eexists. }
  destruct (sendMessageStream api _ content) as [cs outcome].
  rewrite run_callbacks_state.
  destruct outcome;
    unfold append_message, set_messages, set_isLoading;
    cbn [messages]; rewrite run_callbacks_app by done;
    [by eexists|].
  rewrite <- (assoc_L (++)). by eexists.
Qed.

(** A message that is not blank is recorded as typed, right after the
    earlier messages. *)
Lemma handleSendMessage_records api b (content : str)
    (imageFile csvFile : option File) st :
  fresh (streamingMessageId b) (messages st) ->
  userMessageId b <> streamingMessageId b ->
  trim content <> [] ->
  messages st ++ [user_message b content imageFile csvFile]
    `prefix_of` messages (handleSendMessage api b content imageFile csvFile st).
Proof.
  intros Hfresh Hids Htrim. unfold handleSendMessage.
  destruct (trim content) as [|u t]; [done|].
  set (sent := user_message b content imageFile csvFile).
  set (st1 := set_messages (append_message sent) st).
  assert (messages st1 = messages st ++ [sent]) as Hst1 by done.
  rewrite <- Hst1. apply sendMessageInternal_prefix.
  rewrite Hst1. apply Forall_app. split; [done|]. by apply Forall_singleton.
Qed.

(** Sending never alters or removes the earlier messages. A blank message
    (empty, or white space only) changes nothing at all; any other is
    recorded as typed, right after the earlier messages. *)
Theorem handleSendMessage_keeps_history api b (content : str)
    (imageFile csvFile : option File) st :
  fresh (streamingMessageId b) (messages st) ->
  userMessageId b <> streamingMessageId b ->
  let st' := handleSendMessage api b content imageFile csvFile st in
  messages st `prefix_of` messages st' /\
  (forallb is_white_space content = true -> st' = st) /\
  (forallb is_white_space content = false ->
   messages st ++ [user_message b content imageFile csvFile]
     `prefix_of` messages st').
Proof.
  intros Hfresh Hids st'. subst st'.
  destruct (forallb is_white_space content) eqn:Hb.
  - apply trim_nil in Hb. unfold handleSendMessage. rewrite Hb.
    split; [done|]. by split.
  - assert (trim content <> []) as Htrim.
    { intros Htrim. apply trim_nil in Htrim. congruence. }
    pose proof (handleSendMessage_records api b content imageFile csvFile st
                  Hfresh Hids Htrim) as Hprefix.
    split; [|split; [done|by intros _]].
    etrans; [|exact Hprefix]. by apply prefix_app_r.
Qed.

(** *** Regeneration *)

Lemma filter_none {A} (P : A -> Prop) `{!forall x, Decision (P x)} (l : list A) :
  Forall (fun x => ~ P x) l -> filter P l = [].
Proof.
  induction 1 as [|x l Hx _ IH]; [done|].
  by rewrite filter_cons_False.
Qed.

(** [findIndex] gives [-1] when no message satisfies the test, and the
    place of the first one that does otherwise. *)
Lemma findIndex_from_spec (i : Z) (p : Message -> bool) l :
  0 <= i ->
  (findIndex_from i p l = -1 /\ Forall (fun m => p m = false) l) \/
  (exists (k : nat) m,
      findIndex_from i p l = i + Z.of_nat k /\
      l !! k = Some m /\ p m = true /\
      Forall (fun m => p m = false) (take k l)).
Proof.
  revert i. induction l as [|m l IH]; intros i Hi; cbn [findIndex_from].
  - left. by split.
  - destruct (p m) eqn:Hm.
    + right. exists 0%nat, m. repeat split; [lia|done|constructor].
    + destruct (IH (i + 1)) as [[Hnone Hall]|(k & m' & Hk & Hm' & Hp & Hall)];
        [lia|..].
      * left. split; [done|by constructor].
      * right. exists (S k), m'. repeat split; [lia|done..|].
        cbn [take]. by constructor.
Qed.

(** The scan for a user message never reads past the list; it stops at the
    nearest user message below [n], or at [-1] when there is none. *)
Lemma scan_back_spec l (n : nat) :
  (n <= length l)%nat ->
  (scan_back l n = Normal (-1) /\
   forall k m, (k < n)%nat -> l !! k = Some m -> role m <> user) \/
  (exists (j : nat) u,
      scan_back l n = Normal (Z.of_nat j) /\ (j < n)%nat /\
      l !! j = Some u /\ role u = user /\
      forall k m, (j < k < n)%nat -> l !! k = Some m -> role m <> user).
Proof.
  induction n as [|n IH]; intros Hn; cbn [scan_back].
  - left. split; [done|]. intros; lia.
  - destruct (lookup_lt_is_Some_2 l n) as [m Hm]; [lia|]. rewrite Hm.
    destruct (decide (role m = user)) as [Hu|Hu].
    + right. exists n, m. repeat split; [lia|done..|]. intros; lia.
    + destruct IH as [[Hscan Hnone]|(j & u & Hscan & Hj & Hlook & Hrole & Hbetween)];
        [lia|..].
      * left. split; [done|]. intros k m' Hk Hk'.
        destruct (decide (k = n)) as [->|]; [congruence|].
        apply (Hnone k); [lia|done].
      * right. exists j, u. repeat split; [done|lia|done..|].
        intros k m' Hk Hk'.
        destruct (decide (k = n)) as [->|]; [congruence|].
        apply (Hbetween k); [lia|done].
Qed.

(** Regeneration with the first message of that identifier at [i] and the
    nearest user message before it at [j]. *)
Lemma regenerate_at l mid (i j : nat) (m u : Message) :
  l !! i = Some m -> id m = mid -> fresh mid (take i l) ->
  (j < i)%nat -> l !! j = Some u -> role u = user ->
  (forall k m', (j < k < i)%nat -> l !! k = Some m' -> role m' <> user) ->
  handleRegenerateMessage l mid
  = Normal (Resend (remove_message mid l) (content u)).
Proof.
  intros Hi Hid Hfresh Hj Hu Hrole Hbetween.
  unfold handleRegenerateMessage, findIndex.
  destruct (findIndex_from_spec 0 (fun m => bool_decide (id m = mid)) l)
    as [[_ Hnone]|(k & m' & -> & Hk & Hp & Hbefore)]; [lia|..].
  { rewrite Forall_forall in Hnone.
    specialize (Hnone m (list_elem_of_lookup_2 _ _ _ Hi)). cbn in Hnone.
    by apply bool_decide_eq_false in Hnone. }
  assert (k = i) as ->.
  { apply bool_decide_eq_true in Hp.
    destruct (Nat.lt_trichotomy k i) as [Hlt|[->|Hgt]]; [|done|].
    - rewrite Forall_forall in Hfresh. exfalso. apply (Hfresh m'); [|done].
      apply (list_elem_of_lookup_2 _ k). by rewrite lookup_take_lt.
    - rewrite Forall_forall in Hbefore. exfalso.
      assert (bool_decide (id m = mid) = false) as Hm.
      { apply (Hbefore m), (list_elem_of_lookup_2 _ i).
        by rewrite lookup_take_lt. }
      by apply bool_decide_eq_false in Hm. }
  destruct (Z.leb_spec (0 + Z.of_nat i) 0); [lia|].
  replace (Z.to_nat (0 + Z.of_nat i - 1 + 1)) with i by lia.
  destruct (scan_back_spec l i)
    as [[_ Hnone]|(j' & u' & -> & Hj' & Hu' & Hrole' & Hbetween')].
  { apply lookup_lt_Some in Hi. lia. }
  { by destruct (Hnone j u Hj Hu). }
  assert (j' = j) as ->.
  { destruct (Nat.lt_trichotomy j' j) as [Hlt|[->|Hgt]]; [|done|].
    - by destruct (Hbetween' j u (conj Hlt Hj) Hu).
    - by destruct (Hbetween j' u' (conj Hgt Hj') Hu'). }
  destruct (Z.ltb_spec (Z.of_nat j) 0); [lia|].
  rewrite Nat2Z.id, Hu. done.
Qed.

(** [handleRegenerateMessage] never throws, and does one of three things.
    When no message has the identifier, nothing. When no user message
    comes before the first message of that identifier (the first message of
    the list, for one), nothing. Otherwise it removes every message of that
    identifier, leaves the others in place, and resends the content of the
    nearest user message before the first message of that identifier. *)
Theorem handleRegenerateMessage_cases l mid :
  (fresh mid l /\ handleRegenerateMessage l mid = Normal Ignored) \/
  exists (i : nat) m,
    l !! i = Some m /\ id m = mid /\ fresh mid (take i l) /\
    ((Forall (fun u => role u <> user) (take i l) /\
      handleRegenerateMessage l mid = Normal Ignored) \/
     exists (j : nat) u,
       (j < i)%nat /\ l !! j = Some u /\ role u = user /\
       (forall k m', (j < k < i)%nat -> l !! k = Some m' -> role m' <> user) /\
       handleRegenerateMessage l mid
       = Normal (Resend (remove_message mid l) (content u)) /\
       fresh mid (remove_message mid l) /\
       remove_message mid l `sublist_of` l).
Proof.
  destruct (findIndex_from_spec 0 (fun m => bool_decide (id m = mid)) l)
    as [[Hnone Hall]|(i & m & Hfind & Hi & Hp & Hbefore)]; [lia|..].
  { left. split.
    - eapply Forall_impl; [exact Hall|]. intros m Hm.
      by apply bool_decide_eq_false in Hm.
    - unfold handleRegenerateMessage, findIndex. by rewrite Hnone. }
  right. exists i, m. apply bool_decide_eq_true in Hp.
  assert (fresh mid (take i l)) as Hfresh.
  { eapply Forall_impl; [exact Hbefore|]. intros m' Hm'.
    by apply bool_decide_eq_false in Hm'. }
  split; [done|]. split; [done|]. split; [done|].
  destruct (scan_back_spec l i)
    as [[Hscan Hnone]|(j & u & Hscan & Hj & Hu & Hrole & Hbetween)].
  { apply lookup_lt_Some in Hi. lia. }
  - left. split.
    + apply Forall_forall. intros u Hu.
      apply list_elem_of_lookup in Hu as [k Hk].
      apply lookup_take_Some in Hk as [Hk Hlt]. by apply (Hnone k u).
    + unfold handleRegenerateMessage, findIndex. rewrite Hfind.
      destruct (Z.leb_spec (0 + Z.of_nat i) 0); [done|].
      replace (Z.to_nat (0 + Z.of_nat i - 1 + 1)) with i by lia.
      by rewrite Hscan.
  - right. exists j, u. split; [done|]. split; [done|]. split; [done|].
    split; [done|]. split; [by apply (regenerate_at l mid i j m u)|].
    split.
    + apply Forall_forall. intros x Hx.
      by apply list_elem_of_filter in Hx as [? _].
    + apply sublist_filter.
Qed.

(** The message that the list offers for regeneration is the last one, a
    reply of the assistant that is not streaming. When the identifiers are
    all different and the list has a user message, regenerating it removes
    exactly that last message and resends the content of the last user
    message. *)
Theorem regenerate_offered l (i : nat) m :
  (i, m) ∈ MessageList.regenerable l ->
  NoDup (id <$> l) ->
  (exists u, u ∈ l /\ role u = user) ->
  exists init u,
    l = init ++ [m] /\
    role m = assistant /\ isStreaming m <> Some true /\
    last (filter (fun x => role x = user) init) = Some u /\
    handleRegenerateMessage l (id m) = Normal (Resend init (content u)).
Proof.
  intros Hoffered Hnd (u0 & Hu0 & Hrole0).
  apply list_elem_of_filter in Hoffered as [Hlast Hin].
  apply list_elem_of_lookup in Hin as [i' Hi'].
  rewrite list_lookup_imap in Hi'.
  destruct (l !! i') as [m'|] eqn:Hm'; [|done]. cbn in Hi'.
  injection Hi' as <- <-.
  unfold MessageList.isLastAssistantMessage in Hlast. cbn in Hlast.
  apply andb_true_iff in Hlast as [Hlast Hstream].
  apply andb_true_iff in Hlast as [Hrole Hidx].
  apply bool_decide_eq_true in Hrole. apply bool_decide_eq_true in Hidx.
  assert (length l = S i') as Hlen by (unfold len in Hidx; lia).
  assert (l = take i' l ++ [m']) as Hl.
  { rewrite <- (take_drop_middle l i' m' Hm') at 1. f_equal.
    rewrite drop_ge by lia. done. }
  set (init := take i' l) in *.
  assert (fresh (id m') init) as Hfresh.
  { rewrite Hl, fmap_app in Hnd. apply NoDup_app in Hnd as (_ & Hdisj & _).
    apply Forall_forall. intros x Hx Heq.
    apply (Hdisj (id x)); [by apply list_elem_of_fmap_2|].
    rewrite Heq. by left. }
  assert (u0 ∈ init) as Hu0'.
  { rewrite Hl in Hu0. apply elem_of_app in Hu0 as [|Hu0]; [done|].
    apply list_elem_of_singleton in Hu0. congruence. }
  destruct (scan_back_spec l i')
    as [[_ Hnone]|(j & u & _ & Hj & Hu & Hroleu & Hbetween)]; [lia|..].
  { apply list_elem_of_lookup in Hu0' as [k Hk]. unfold init in Hk.
    apply lookup_take_Some in Hk as [Hk Hlt]. by destruct (Hnone k u0). }
  exists init, u. split; [done|]. split; [done|]. split.
  { intros Hs. by rewrite Hs in Hstream. }
  split.
  - assert (init !! j = Some u) as Hju by (unfold init; by rewrite lookup_take_lt).
    rewrite <- (take_drop_middle init j u Hju), filter_app, filter_cons_True
      by done.
    assert (filter (fun x => role x = user) (drop (S j) init) = []) as ->.
    { apply filter_none, Forall_forall. intros x Hx.
      apply list_elem_of_lookup in Hx as [k Hk].
      rewrite lookup_drop in Hk. unfold init in Hk.
      apply lookup_take_Some in Hk as [Hk Hlt].
      apply (Hbetween (S j + k)%nat); [lia|done]. }
    by rewrite last_snoc.
  - rewrite (regenerate_at l (id m') i' j m' u) by done. do 2 f_equal.
    rewrite Hl at 1. unfold remove_message. rewrite filter_app.
    rewrite filter_cons_False by (cbn; tauto). rewrite filter_nil, app_nil_r.
    by apply remove_message_fresh.
Qed.

(** *** Instances on the sample session *)

Lemma stream_completes_witness :
  fresh (streamingMessageId Session.browser) [Session.question] /\
  sendMessageInternal (Session.backend Session.greeting) Session.browser
    (lit "Hi") None None (Session.connected_with [Session.question])
  = rested (Session.connected_with [Session.question])
      [Session.question;
       assistant_message (lit "m2") (lit "Hello") 1700000000001 None
         (Some false)].
Proof.
  split; [by repeat constructor|].
  apply (stream_completes (Session.backend Session.greeting) Session.browser
           (lit "Hi") (lit "s1") (Session.connected_with [Session.question])
           [lit "Hel"; lit "lo"] (lit "m2"));
    [reflexivity|by vm_compute|reflexivity|by repeat constructor|reflexivity].
Defined.


Lemma stream_rejected_keeps_placeholder_witness :
  fresh (streamingMessageId Session.browser) [Session.question] /\
  sendMessageInternal (Session.backend Session.dropped) Session.browser
    (lit "Hi") None None (Session.connected_with [Session.question])
  = rested (Session.connected_with [Session.question])
      [Session.question;
       assistant_message (lit "streaming-1700000000001") (lit "Hel")
         1700000000001 None (Some true);
       fallback_message Session.browser].
Proof.
  split; [by repeat constructor|].
  apply (stream_rejected_keeps_placeholder (Session.backend Session.dropped)
           Session.browser (lit "Hi") (lit "s1")
           (Session.connected_with [Session.question]) [lit "Hel"]);
    [reflexivity|by vm_compute|reflexivity|by repeat constructor|reflexivity].
Defined.

Lemma one_reply_outside_stream_witness :
  not_connected Session.offline = true /\
  exists reply,
    messages (sendMessageInternal (Session.backend Session.greeting)
                Session.browser (lit "Hi") None None Session.offline)
      = messages Session.offline ++ [reply] /\
    role reply = assistant /\ isStreaming reply = None /\
    isLoading (sendMessageInternal (Session.backend Session.greeting)
                 Session.browser (lit "Hi") None None Session.offline)
      = false /\
    (not_connected Session.offline = true ->
     reply = fallback_message Session.browser).
Proof.
  split; [reflexivity|].
  apply (one_reply_outside_stream (Session.backend Session.greeting)
           Session.browser (lit "Hi") None None Session.offline).
  left. reflexivity.
Defined.

Lemma image_sent_csv_dropped_witness :
  trim (lit "Describe") <> [] /\
  messages (handleSendMessage (Session.backend Session.greeting)
              Session.browser (lit "Describe")
              (Some Session.photo) (Some Session.table)
              (Session.connected_with []))
  = [user_message Session.browser (lit "Describe")
       (Some Session.photo) (Some Session.table);
     assistant_message (lit "m7") (lit "Done.") 1700000000001 None None].
Proof.
  split; [by vm_compute|].
  apply (image_sent_csv_dropped (Session.backend Session.greeting)
           Session.browser (lit "Describe") (lit "s1")
           Session.photo Session.table (Session.connected_with []));
    [by vm_compute|reflexivity|by vm_compute|reflexivity].
Defined.

Lemma handleSendMessage_keeps_history_witness :
  fresh (streamingMessageId Session.browser) [Session.question; Session.reply] /\
  userMessageId Session.browser <> streamingMessageId Session.browser /\
  [Session.question; Session.reply]
    `prefix_of`
  messages (handleSendMessage (Session.backend Session.greeting)
              Session.browser (lit "Hi") None None
              (Session.connected_with [Session.question; Session.reply])).
Proof.
  split; [by repeat constructor|]. split; [by vm_compute|].
  apply (handleSendMessage_keeps_history (Session.backend Session.greeting)
           Session.browser (lit "Hi") None None
           (Session.connected_with [Session.question; Session.reply]));
    [by repeat constructor|by vm_compute].
Defined.

Lemma regenerate_offered_witness :
  (1%nat, Session.reply)
    ∈ MessageList.regenerable [Session.question; Session.reply] /\
  NoDup (id <$> [Session.question; Session.reply]) /\
  exists init u,
    [Session.question; Session.reply] = init ++ [Session.reply] /\
    role Session.reply = assistant /\
    isStreaming Session.reply <> Some true /\
    last (filter (fun x => role x = user) init) = Some u /\
    handleRegenerateMessage [Session.question; Session.reply]
      (id Session.reply)
    = Normal (Resend init (content u)).
Proof.
  assert ((1%nat, Session.reply)
            ∈ MessageList.regenerable [Session.question; Session.reply])
    as Hoffered by (vm_compute; constructor).
  assert (NoDup (id <$> [Session.question; Session.reply])) as Hnd
    by compute_done.
  split; [exact Hoffered|]. split; [exact Hnd|].
  apply (regenerate_offered [Session.question; Session.reply] 1
           Session.reply Hoffered Hnd).
  exists Session.question. split; [by left|reflexivity].
Defined.

End ChatWindowFacts.

(** ** The chat input *)

Module ChatInputFacts.

Import JS JSFacts ChatWindow ChatInput.

(** [startsWith] and [endsWith] decide prefixes and suffixes. *)
Lemma startsWith_prefix (s p : str) :
  startsWith s p = true <-> p `prefix_of` s.
Proof.
  revert s. induction p as [|a p IH]; intros s.
  - destruct s; cbn; (split; [intros _; apply prefix_nil|done]).
  - destruct s as [|c s]; cbn.
    + split; [done|]. intros [k Hk]. discriminate.
    + rewrite andb_true_iff, IH, N.eqb_eq. split.
      * intros [-> Hp]. by apply prefix_cons.
      * intros [k Hk]. injection Hk as -> ->. split; [done|]. by exists k.
Qed.

Lemma endsWith_suffix (s p : str) :
  endsWith s p = true <-> p `suffix_of` s.
Proof.
  unfold endsWith. rewrite startsWith_prefix.
  symmetry. apply suffix_prefix_reverse.
Qed.

(** A press of send with a blank input (empty, or white space only) does
    nothing and keeps the attachments. Any other input is handed over as
    typed, not trimmed, with both attachments, and the form is cleared: a
    second press sends nothing. *)
Theorem handleSend_cases (form : ChatInput.State) :
  (forallb is_white_space (input form) = true /\
   handleSend form = (form, None)) \/
  (forallb is_white_space (input form) = false /\
   exists form',
     handleSend form
     = (form', Some {| sent_content := input form;
                       sent_image := imageFile form;
                       sent_csv := csvFile form |}) /\
     input form' = [] /\
     imageFile form' = None /\ imagePreview form' = None /\
     csvFile form' = None /\ csvPreview form' = None /\
     handleSend form' = (form', None) /\
     send_disabled false form' = true).
Proof.
  unfold handleSend.
  destruct (forallb is_white_space (input form)) eqn:Hb.
  - left. apply trim_nil in Hb. by rewrite Hb.
  - right. split; [done|].
    destruct (trim (input form)) as [|u t] eqn:Htrim.
    { apply trim_nil in Htrim. congruence. }
    eexists. split; [reflexivity|]. by repeat split.
Qed.

(** What the input hands over, the chat window records: the two checks for
    a blank message agree, so the user message is appended as typed, with
    the markers of its attachments. *)
Theorem sent_message_is_recorded api (b : Browser)
    (form form' : ChatInput.State) (s : sent) (st : ChatWindow.State) :
  handleSend form = (form', Some s) ->
  Forall (fun m => id m <> streamingMessageId b) (messages st) ->
  userMessageId b <> streamingMessageId b ->
  messages st
    ++ [user_message b (input form) (imageFile form) (csvFile form)]
    `prefix_of`
  messages (handleSendMessage api b (sent_content s) (sent_image s)
              (sent_csv s) st).
Proof.
  intros Hsend Hfresh Hids. unfold handleSend in Hsend.
  destruct (trim (input form)) as [|u t] eqn:Htrim; [done|].
  injection Hsend as _ <-. cbn [sent_content sent_image sent_csv].
  apply ChatWindowFacts.handleSendMessage_records; [done..|].
  by rewrite Htrim.
Qed.

(** A file chosen with the general picker is taken as an image when its
    type begins with [image/], whatever its name; otherwise as a CSV file
    when its name ends in [.csv] or its type is [text/csv]; otherwise it is
    ignored. The other attachment and the text are left as they are. *)
Theorem general_upload_by_kind (f : File) (form : ChatInput.State) :
  (lit "image/" `prefix_of` type f ->
   handleGeneralFileUpload (Some f) form = handleImageUpload (Some f) form) /\
  (~ lit "image/" `prefix_of` type f ->
   lit ".csv" `suffix_of` name f \/ type f = lit "text/csv" ->
   handleGeneralFileUpload (Some f) form = handleCsvUpload (Some f) form) /\
  (~ lit "image/" `prefix_of` type f ->
   ~ lit ".csv" `suffix_of` name f -> type f <> lit "text/csv" ->
   handleGeneralFileUpload (Some f) form = (form, None)) /\
  input (handleGeneralFileUpload (Some f) form).1 = input form /\
  (csvFile (handleImageUpload (Some f) form).1 = csvFile form) /\
  (imageFile (handleCsvUpload (Some f) form).1 = imageFile form).
Proof.
  unfold handleGeneralFileUpload, handleImageUpload, handleCsvUpload.
  destruct (startsWith (type f) (lit "image/")) eqn:Himage.
  { apply startsWith_prefix in Himage. by repeat split. }
  assert (~ lit "image/" `prefix_of` type f) as Hnot.
  { intros Hp. apply startsWith_prefix in Hp. congruence. }
  destruct (endsWith (name f) (lit ".csv")) eqn:Hname.
  { apply endsWith_suffix in Hname. by repeat split. }
  assert (~ lit ".csv" `suffix_of` name f) as Hnot'.
  { intros Hp. apply endsWith_suffix in Hp. congruence. }
  cbn [orb].
  destruct (decide (type f = lit "text/csv")) as [Htype|Htype].
  - rewrite bool_decide_eq_true_2 by done. by repeat split.
  - rewrite bool_decide_eq_false_2 by done.
    repeat split; try done. by intros _ [|].
Qed.

Lemma sent_message_is_recorded_witness :
  handleSend Session.form
  = ({| input := []; imageFile := None; imagePreview := None;
        csvFile := None; csvPreview := None |},
     Some {| sent_content := lit " How many rows? ";
             sent_image := Some Session.photo;
             sent_csv := Some Session.table |}) /\
  [Session.question; Session.reply]
    ++ [user_message Session.browser (lit " How many rows? ")
          (Some Session.photo) (Some Session.table)]
    `prefix_of`
  messages (handleSendMessage (Session.backend Session.greeting)
              Session.browser (lit " How many rows? ")
              (Some Session.photo) (Some Session.table)
              (Session.connected_with [Session.question; Session.reply])).
Proof.
  split; [reflexivity|].
  apply (sent_message_is_recorded (Session.backend Session.greeting)
           Session.browser Session.form
           {| input := []; imageFile := None; imagePreview := None;
              csvFile := None; csvPreview := None |}
           {| sent_content := lit " How many rows? ";
              sent_image := Some Session.photo;
              sent_csv := Some Session.table |}
           (Session.connected_with [Session.question; Session.reply]));
    [reflexivity|by repeat constructor|by vm_compute].
Defined.

(** An image named [photo.csv] is taken as an image. *)
Lemma general_upload_by_kind_witness :
  lit "image/" `prefix_of` type Session.photo /\
  handleGeneralFileUpload (Some Session.photo) Session.form
  = handleImageUpload (Some Session.photo) Session.form.
Proof.
  assert (lit "image/" `prefix_of` type Session.photo) as Hp
    by (by exists (lit "png")).
  split; [exact Hp|].
  exact (proj1 (general_upload_by_kind Session.photo Session.form) Hp).
Defined.

End ChatInputFacts.

(** ** The message bubble *)

Module MessageBubbleFacts.

Import JS ChatWindow MessageBubble.

(** While a reply streams, a chunk changes what the comparator of the
    bubbles looks at for the streaming message only: every other bubble
    compares equal, with whatever action, and the streaming one compares
    equal exactly when the chunk is empty. *)
Theorem chunk_rerenders_streaming_bubble (sid chunk : str)
    (prev : list Message) (i : nat) (m : Message) (r r' : option str) :
  prev !! i = Some m ->
  exists m',
    on_chunk sid chunk prev !! i = Some m' /\
    (areEqual {| message := m; onRegenerate := r |}
              {| message := m'; onRegenerate := r' |} = true
     <-> id m <> sid \/ chunk = []).
Proof.
  intros Hm. unfold on_chunk. rewrite list_lookup_fmap, Hm. cbn.
  eexists. split; [reflexivity|].
  unfold areEqual. cbn [message].
  destruct (decide (id m = sid)) as [Hid|Hid]; cbn.
  - rewrite (bool_decide_eq_true_2 (id m = id m)) by done.
    rewrite (bool_decide_eq_true_2 (isStreaming m = isStreaming m)) by done.
    rewrite (bool_decide_eq_true_2 (visualization m = visualization m))
      by done.
    cbn [andb]. rewrite !andb_true_r, bool_decide_eq_true. split.
    + intros Heq. right. apply (app_inv_head (content m)).
      by rewrite app_nil_r.
    + intros [?| ->]; [done|]. by rewrite app_nil_r.
  - rewrite !bool_decide_eq_true_2 by done. split; [by left|done].
Qed.

(** When a message is appended after a reply that had the regenerate
    action, the bubble of that reply is given no action any more, but the
    comparator reports its props as equal to the earlier ones: it looks at
    the message only. *)
Theorem regenerate_action_not_compared (l : list Message) (x : Message)
    (i : nat) (p : Props) (mid : str) :
  MessageList.bubbles l !! i = Some p ->
  onRegenerate p = Some mid ->
  exists p',
    MessageList.bubbles (l ++ [x]) !! i = Some p' /\
    onRegenerate p' = None /\
    areEqual p p' = true.
Proof.
  unfold MessageList.bubbles. rewrite !list_lookup_imap.
  intros Hp Hmid.
  destruct (l !! i) as [m|] eqn:Hm; [|done]. cbn in Hp.
  injection Hp as <-. cbn [onRegenerate] in Hmid.
  rewrite (lookup_app_l_Some _ _ _ _ Hm). cbn.
  eexists. split; [reflexivity|].
  unfold MessageList.isLastAssistantMessage in *.
  destruct (bool_decide (role m = assistant)); [|done]. cbn in *.
  destruct (bool_decide (Z.of_nat i = len l - 1)) eqn:Hi; [|done].
  apply bool_decide_eq_true in Hi. unfold len in Hi.
  rewrite bool_decide_eq_false_2
    by (unfold len; rewrite length_app; cbn; lia).
  cbn. split; [done|]. unfold areEqual. cbn.
  by rewrite !bool_decide_eq_true_2.
Qed.

Lemma chunk_rerenders_streaming_bubble_witness :
  [Session.question; ChatWindow.placeholder Session.browser] !! 1%nat
  = Some (ChatWindow.placeholder Session.browser) /\
  exists m',
    on_chunk (streamingMessageId Session.browser) (lit "Hel")
      [Session.question; ChatWindow.placeholder Session.browser] !! 1%nat
    = Some m' /\
    (areEqual
       {| message := ChatWindow.placeholder Session.browser;
          onRegenerate := None |}
       {| message := m'; onRegenerate := None |} = true
     <-> id (ChatWindow.placeholder Session.browser)
           <> streamingMessageId Session.browser
         \/ lit "Hel" = []).
Proof.
  split; [reflexivity|].
  apply (chunk_rerenders_streaming_bubble
           (streamingMessageId Session.browser) (lit "Hel")
           [Session.question; ChatWindow.placeholder Session.browser] 1
           (ChatWindow.placeholder Session.browser) None None).
  reflexivity.
Defined.

Lemma regenerate_action_not_compared_witness :
  MessageList.bubbles [Session.question; Session.reply] !! 1%nat
  = Some {| message := Session.reply; onRegenerate := Some (lit "m1") |} /\
  exists p',
    MessageList.bubbles
      ([Session.question; Session.reply] ++ [Session.question]) !! 1%nat
    = Some p' /\
    onRegenerate p' = None /\
    areEqual {| message := Session.reply; onRegenerate := Some (lit "m1") |}
      p' = true.
Proof.
  split; [reflexivity|].
  apply (regenerate_action_not_compared [Session.question; Session.reply]
           Session.question 1
           {| message := Session.reply; onRegenerate := Some (lit "m1") |}
           (lit "m1")); reflexivity.
Defined.

End MessageBubbleFacts.
